(** * OOTP storyline editor: record model, XML translation and editor operations

    A shallow embedding of [ootp_storyline_gui.py].  Python [str] values are
    [string]s holding the UTF-8 bytes of the text: byte-wise lexicographic
    order on UTF-8 coincides with Python's code point order, so [String.le]
    is Python's [<=] on [str].  Python dictionaries whose keys are strings
    are finite maps ([gmap string _]); dictionary equality in Python does
    not depend on insertion order, and neither does any property below.

    An XML document is the element tree that [xml.etree.ElementTree] hands
    to the program ([ET.parse]) or receives from it ([tree.write]). *)

From stdpp Require Import gmap strings pretty list sorting.
From Stdlib Require Import NArith.

Open Scope string_scope.
Open Scope list_scope.

(** ** Exceptions *)

Inductive exn :=
  | ParseError      (* ET.parse rejects the file *)
  | ValueError      (* raised by parse_xml_file itself *)
  | KeyError
  | IndexError
  | AttributeError
  | TypeError.

Inductive result (A : Type) :=
  | Ok (a : A)
  | Raise (e : exn).
Arguments Ok {A} a.
Arguments Raise {A} e.

#[global] Instance result_ret : MRet result := λ A a, Ok a.
#[global] Instance result_bind : MBind result := λ A B f m,
  match m with
  | Ok a => f a
  | Raise e => Raise e
  end.

(** A [for] loop whose body may raise: the state reached so far is threaded
    through, the first exception ends the loop. *)
Fixpoint for_each {A S : Type} (body : S → A → result S) (s : S) (l : list A)
  : result S :=
  match l with
  | [] => Ok s
  | x :: l' => s' ← body s x; for_each body s' l'
  end.

(** ** ElementTree elements *)

Module ET.

#[warnings="-register-all"]
Inductive element := Element {
  tag : string;
  attrib : gmap string string;
  text : option string;
  children : list element
}.

(** [elem.findall(name)]: the direct children with that tag, in order. *)
Definition findall (name : string) (e : element) : list element :=
  filter (λ c, tag c = name) (children e).

(** [elem.find(name)]: the first such child, or [None]. *)
Definition find (name : string) (e : element) : option element :=
  head (findall name e).

(** [elem.get(key, default)]. *)
Definition get (e : element) (key default_ : string) : string :=
  default default_ (attrib e !! key).

(** [elem.text or ''] *)
Definition text_or_empty (e : element) : string :=
  match text e with
  | Some t => t
  | None => ""
  end.

End ET.

(** ** Sorting

    [list.sort(key=...)] and [sorted] are stable; a stable sort has exactly
    one result, computed here by insertion. *)

Fixpoint insert_sorted {A : Type} (key : A → string) (x : A) (l : list A)
  : list A :=
  match l with
  | [] => [x]
  | y :: l' =>
      if decide (String.le (key x) (key y)) then x :: y :: l'
      else y :: insert_sorted key x l'
  end.

Fixpoint py_sorted {A : Type} (key : A → string) (l : list A) : list A :=
  match l with
  | [] => []
  | x :: l' => insert_sorted key x (py_sorted key l')
  end.

(** Ascending order of the keys, the order [sorted] establishes. *)
Definition key_le {A : Type} (key : A → string) (x y : A) : Prop :=
  String.le (key x) (key y).

(** ** The attribute catalog (class AttributeManager) *)

Module AttributeManager.

(** The ['data_object_attributes'] object of the loaded JSON; a field is
    [None] when the key is missing, which [.get(key, default)] replaces
    by the default. *)
Record data_object_attributes := {
  by_type : option (gmap string (list string));
  common : option (list string)
}.

Section attributes_for_type.
(** [list(set(...))] enumerates a set in an order Python does not
    specify. *)
Variable set_iteration : gset string → list string.

Definition get_attributes_for_type
    (data : data_object_attributes) (obj_type : string) : list string :=
  let by_type := default ∅ (by_type data) in
  let common := default [] (common data) in
  let specific := default [] (by_type !! obj_type) in
  let all_attrs := set_iteration (list_to_set (common ++ specific)) in
  py_sorted id all_attrs.
End attributes_for_type.

(** What an iteration order has to satisfy: every member once. *)
Definition enumerates (it : gset string → list string) : Prop :=
  ∀ X, NoDup (it X) ∧ ∀ x, x ∈ it X ↔ x ∈ X.

End AttributeManager.

(** ** The record model (class ModernOOTPStorylineGUI)

    A storyline is a Python dict.  Its keys ['required_data'] and
    ['articles'] are created by [parse_storyline_element] and by
    [save_storyline] and are never removed; each holds its list, or a
    [str] when an XML attribute of that very name has overwritten the list
    (the attribute loop stores every attribute under its own name).  Every
    other key holds a [str].  The record below is that dict: [attrs] maps
    every key other than the two list keys. *)

Module GUI.

Inductive slot (A : Type) :=
  | Items (l : list A)
  | Str (s : string).
Arguments Items {A} l.
Arguments Str {A} s.

(** An article dict has the fixed keys ['id'], ['subject'], ['text'],
    ['injury_description'] and ['modifiers']. *)
Record article := Article {
  article_id : string;
  subject : string;
  text : string;
  injury_description : string;
  modifiers : gmap string string
}.

Record storyline := Storyline {
  attrs : gmap string string;
  required_data : slot (gmap string string);
  articles : slot article
}.

(** [storyline[key] = value] for a [str] value. *)
Definition setitem (s : storyline) (key value : string) : storyline :=
  if decide (key = "required_data") then
    Storyline (attrs s) (Str value) (articles s)
  else if decide (key = "articles") then
    Storyline (attrs s) (required_data s) (Str value)
  else Storyline (<[key := value]> (attrs s)) (required_data s) (articles s).

(** [storyline[key]] for a key that is not one of the two list keys. *)
Definition getitem (s : storyline) (key : string) : result string :=
  match attrs s !! key with
  | Some v => Ok v
  | None => Raise KeyError
  end.

(** *** parse_storyline_element *)

Definition defaults : list (string * string) :=
  [ ("id", ""); ("random_frequency", ""); ("league_year_min", "");
    ("league_year_max", ""); ("only_in_season", "");
    ("only_in_offseason", ""); ("only_in_spring", "");
    ("is_minor_league", ""); ("storyline_happens_only_once", "");
    ("min_usage_interval_days", ""); ("trigger_events", "") ].

(** [key in storyline] *)
Definition contains (s : storyline) (key : string) : bool :=
  bool_decide (key = "required_data") || bool_decide (key = "articles")
  || bool_decide (is_Some (attrs s !! key)).

(** [if key not in storyline: storyline[key] = default_value] *)
Definition set_default (s : storyline) (kv : string * string) : storyline :=
  if contains s kv.1 then s else setitem s kv.1 kv.2.

(** [storyline['required_data'].append(data)]; a [str] has no [append]. *)
Definition append_required_data (s : storyline) (data_obj : ET.element)
  : result storyline :=
  let data := ET.attrib data_obj in
  match required_data s with
  | Items l => Ok (Storyline (attrs s) (Items (l ++ [data])) (articles s))
  | Str _ => Raise AttributeError
  end.

Definition parse_article (article_elem : ET.element) : article :=
  let sub_text name :=
    match ET.find name article_elem with
    | Some e => ET.text_or_empty e
    | None => ""
    end in
  {| article_id := ET.get article_elem "id" "";
     subject := sub_text "SUBJECT";
     text := sub_text "TEXT";
     injury_description := sub_text "INJURY_DESCRIPTION";
     modifiers := delete "id" (ET.attrib article_elem) |}.

Definition append_article (s : storyline) (article_elem : ET.element)
  : result storyline :=
  let article := parse_article article_elem in
  match articles s with
  | Items l => Ok (Storyline (attrs s) (required_data s) (Items (l ++ [article])))
  | Str _ => Raise AttributeError
  end.

Definition parse_storyline_element (elem : ET.element) : result storyline :=
  let storyline := Storyline ∅ (Items []) (Items []) in
  let storyline :=
    map_fold (λ attr_name attr_value s, setitem s attr_name attr_value)
             storyline (ET.attrib elem) in
  let storyline := foldl set_default storyline defaults in
  storyline ←
    match ET.find "REQUIRED_DATA" elem with
    | Some required_data_elem =>
        for_each append_required_data storyline
                 (ET.findall "DATA_OBJECT" required_data_elem)
    | None => Ok storyline
    end;
  match ET.find "ARTICLES" elem with
  | Some articles_elem =>
      for_each append_article storyline (ET.findall "ARTICLE" articles_elem)
  | None => Ok storyline
  end.

(** *** parse_xml_file

    [self.storylines] is the only attribute the function assigns.  The
    file is [None] when [ET.parse] rejects it.  The result pairs the value
    of [self.storylines] when the call ends with its outcome. *)

(** The loop over the STORYLINE elements appends to [self.storylines] as it
    goes; an exception leaves what was appended before it. *)
Fixpoint parse_storylines (acc : list storyline) (elems : list ET.element)
  : list storyline * result unit :=
  match elems with
  | [] => (acc, Ok ())
  | e :: elems' =>
      match parse_storyline_element e with
      | Ok s => parse_storylines (acc ++ [s]) elems'
      | Raise x => (acc, Raise x)
      end
  end.

(** Code points of a string: the bytes that do not continue a UTF-8
    sequence ([len] of a [str]). *)
Definition py_len (s : string) : nat :=
  length (filter (λ c : Ascii.ascii, (Ascii.N_of_ascii c <? 128)%N ∨
                               (192 <=? Ascii.N_of_ascii c)%N)
                 (String.list_ascii_of_string s)).

(** The part of [update_storyline_list] that can raise: the row title is
    [storyline['articles'][0]['subject']] when ['articles'] is truthy, and
    indexing a character of a [str] by a key is a [TypeError]. *)
Definition title_raises (s : storyline) : bool :=
  match articles s with
  | Str t => bool_decide (t ≠ "")
  | Items _ => false
  end.

Definition update_storyline_list (l : list storyline) : result unit :=
  if existsb title_raises l then Raise TypeError else Ok ().

(** The keys are computed before the list is reordered. *)
Definition sort_by_id (l : list storyline) : result (list storyline) :=
  keyed ← for_each (λ acc s, k ← getitem s "id"; Ok (acc ++ [(k, s)])) [] l;
  Ok ((py_sorted fst keyed).*2).

Definition parse_xml_file (self_storylines : list storyline)
    (file : option ET.element) : list storyline * result unit :=
  match file with
  | None => (self_storylines, Raise ParseError)
  | Some root =>
      let self_storylines : list storyline := [] in
      match ET.find "STORYLINES" root with
      | None => (self_storylines, Raise ValueError)
      | Some storylines_elem =>
          match parse_storylines self_storylines
                  (ET.findall "STORYLINE" storylines_elem) with
          | (parsed, Raise x) => (parsed, Raise x)
          | (parsed, Ok _) =>
              match sort_by_id parsed with
              | Raise x => (parsed, Raise x)
              | Ok sorted => (sorted, update_storyline_list sorted)
              end
          end
      end
  end.

(** *** create_xml_file

    The tree is the one passed to [tree.write].  [ET.indent] only stores
    white space in the [text] of elements that have children (and in
    tails, which are not modelled); no such text is ever read back. *)

Definition attributes : list string :=
  [ "random_frequency"; "league_year_min"; "league_year_max";
    "only_in_season"; "only_in_offseason"; "only_in_spring";
    "is_minor_league"; "storyline_happens_only_once";
    "min_usage_interval_days"; "trigger_events" ].

(** [if storyline[attr]: storyline_elem.set(attr, storyline[attr])] *)
Definition set_if_nonempty (s : storyline) (a : gmap string string)
    (attr : string) : result (gmap string string) :=
  v ← getitem s attr;
  Ok (if decide (v = "") then a else <[attr := v]> a).

(** [for key, value in d.items(): if value: e.set(key, value)] *)
Definition set_nonempty_items (d a : gmap string string) : gmap string string :=
  filter (λ kv, kv.2 ≠ "") d ∪ a.

Definition data_object_element (data : gmap string string) : ET.element :=
  ET.Element "DATA_OBJECT" (set_nonempty_items data ∅) None [].

Definition text_child (name value : string) : list ET.element :=
  if decide (value = "") then []
  else [ET.Element name ∅ (Some value) []].

Definition article_element (a : article) : ET.element :=
  ET.Element "ARTICLE"
    (set_nonempty_items (modifiers a) {[ "id" := article_id a ]})
    None
    (text_child "SUBJECT" (subject a) ++ text_child "TEXT" (text a)
     ++ text_child "INJURY_DESCRIPTION" (injury_description a)).

(** The REQUIRED_DATA child, present when [storyline['required_data']] is
    truthy.  Iterating a non-empty [str] yields one-character strings,
    which have no [items]. *)
Definition required_data_children (s : storyline) : result (list ET.element) :=
  match required_data s with
  | Items [] => Ok []
  | Items l => Ok [ET.Element "REQUIRED_DATA" ∅ None (data_object_element <$> l)]
  | Str t => if decide (t = "") then Ok [] else Raise AttributeError
  end.

(** The ARTICLES child; [article['id']] on a one-character string is a
    [TypeError]. *)
Definition articles_children (s : storyline) : result (list ET.element) :=
  match articles s with
  | Items [] => Ok []
  | Items l => Ok [ET.Element "ARTICLES" ∅ None (article_element <$> l)]
  | Str t => if decide (t = "") then Ok [] else Raise TypeError
  end.

(** The body of the loop over [self.storylines]. *)
Definition storyline_element (s : storyline) : result ET.element :=
  id ← getitem s "id";
  a ← for_each (set_if_nonempty s) {[ "id" := id ]} attributes;
  rd ← required_data_children s;
  arts ← articles_children s;
  Ok (ET.Element "STORYLINE" a None (rd ++ arts)).

Fixpoint storyline_elements (l : list storyline) : result (list ET.element) :=
  match l with
  | [] => Ok []
  | s :: l' =>
      e ← storyline_element s;
      es ← storyline_elements l';
      Ok (e :: es)
  end.

(** [now] is [datetime.now().strftime('%Y-%m-%d %H:%M:%S')]. *)
Definition create_xml_file (self_storylines : list storyline) (now : string)
  : result ET.element :=
  es ← storyline_elements self_storylines;
  Ok (ET.Element "STORYLINE_DATABASE"
        {[ "fileversion" := ("OOTP Developments " ++ now)%string ]} None
        [ET.Element "STORYLINES" ∅ None es]).

(** *** delete_current_article *)

Record session := Session {
  storylines : list storyline;
  current_storyline_index : option nat;
  current_article_index : Z
}.

Inductive delete_outcome :=
  | ArticleDeleted
  | DeleteDeclined        (* the confirmation dialog was answered "no" *)
  | WarnAtLeastOneArticle (* messagebox.showwarning *)
  | NoAction.

(** [askyesno] is the answer the confirmation dialog returns if shown. *)
Definition delete_current_article (self : session) (askyesno : bool)
  : session * result delete_outcome :=
  match current_storyline_index self with
  | None => (self, Ok NoAction)
  | Some i =>
    if decide (0 ≤ current_article_index self)%Z then
      match storylines self !! i with
      | None => (self, Raise IndexError)
      | Some storyline =>
        let len_articles :=
          match articles storyline with
          | Items l => length l
          | Str t => py_len t
          end in
        if decide (1 < len_articles) then
          if askyesno then
            match articles storyline with
            | Str _ => (self, Raise TypeError)
            | Items l =>
              let idx := Z.to_nat (current_article_index self) in
              if decide (idx < length l) then
                let l' := delete idx l in
                let storyline' :=
                  Storyline (attrs storyline) (required_data storyline)
                            (Items l') in
                let cai :=
                  if decide (Z.of_nat (length l') ≤ current_article_index self)%Z
                  then (Z.of_nat (length l') - 1)%Z
                  else current_article_index self in
                (Session (<[i := storyline']> (storylines self)) (Some i) cai,
                 Ok ArticleDeleted)
              else (self, Raise IndexError)
            end
          else (self, Ok DeleteDeclined)
        else (self, Ok WarnAtLeastOneArticle)
      end
    else (self, Ok NoAction)
  end.

(** *** set_main_actor

    [selected] is [self.required_data_listbox.curselection()].  The result
    pairs [self.required_data_list] after the call with the outcome;
    redrawing the list reads [data['type']] of every entry. *)

Inductive main_actor_outcome :=
  | MainActorSet
  | WarnSelectParticipant.

Definition set_main_actor (required_data_list : list (gmap string string))
    (selected : list nat)
  : list (gmap string string) * result main_actor_outcome :=
  match selected with
  | [] => (required_data_list, Ok WarnSelectParticipant)
  | index :: _ =>
    let cleared := delete "main_actor" <$> required_data_list in
    match cleared !! index with
    | None => (cleared, Raise IndexError)
    | Some data =>
      let updated := <[index := <["main_actor" := "1"]> data]> cleared in
      (updated,
       if forallb (λ d, bool_decide (is_Some (d !! "type"))) updated
       then Ok MainActorSet else Raise KeyError)
    end
  end.

(** The flag as the editor reads it: [data.get('main_actor') == '1']. *)
Definition is_main_actor (data : gmap string string) : Prop :=
  data !! "main_actor" = Some "1".

End GUI.

(** ** Renumbering template tags (update_tag_numbers)

    The text a widget holds is a sequence of Unicode code points, and the
    classes [\w], [\d] and [\s] of a [str] pattern are the Unicode ones:
    the ASCII part is fixed below, the rest of the classification is a
    parameter. *)

Module Tags.

Definition char := N.

(** The code points of an ASCII literal. *)
Definition codes (s : string) : list char :=
  Ascii.N_of_ascii <$> String.list_ascii_of_string s.

(** The constructs of the pattern: literal characters, concatenation,
    greedy repetition of a character class, numbered groups. *)
Inductive regex :=
  | Chr (c : char)
  | Cat (r1 r2 : regex)
  | Star (p : char → bool)
  | Plus (p : char → bool)
  | Group (n : nat) (r : regex).

Definition captures := nat → list char.

Definition set_group (n : nat) (w : list char) (caps : captures) : captures :=
  λ m, if decide (m = n) then w else caps m.

(** Greedy repetition: take as many characters of the class as there are,
    and give one back at a time while the rest of the pattern fails. *)
Fixpoint greedy {R : Type} (p : char → bool) (s : list char)
    (k : list char → option R) : option R :=
  match s with
  | c :: s' =>
      if p c then
        match greedy p s' k with
        | Some r => Some r
        | None => k s
        end
      else k s
  | [] => k []
  end.

(** The backtracking matcher: [k] is the rest of the pattern. *)
Fixpoint rmatch {R : Type} (r : regex) (s : list char) (caps : captures)
    (k : list char → captures → option R) : option R :=
  match r with
  | Chr c =>
      match s with
      | c' :: s' => if decide (c' = c) then k s' caps else None
      | [] => None
      end
  | Cat r1 r2 => rmatch r1 s caps (λ s1 caps1, rmatch r2 s1 caps1 k)
  | Star p => greedy p s (λ s', k s' caps)
  | Plus p =>
      match s with
      | c :: s' => if p c then greedy p s' (λ s'', k s'' caps) else None
      | [] => None
      end
  | Group n r =>
      rmatch r s caps
        (λ s' caps', k s' (set_group n (take (length s - length s') s) caps'))
  end.

(** A literal string. *)
Fixpoint lit (w : list char) (r : regex) : regex :=
  match w with
  | [] => r
  | c :: w' => Cat (Chr c) (lit w' r)
  end.

Section classes.
(** [\w], [\d] and [\s] beyond ASCII. *)
Variables uni_word uni_digit uni_space : char → bool.

Definition is_digit (c : char) : bool :=
  if (c <? 128)%N then (48 <=? c)%N && (c <=? 57)%N else uni_digit c.

Definition is_word (c : char) : bool :=
  if (c <? 128)%N then
    ((48 <=? c)%N && (c <=? 57)%N) || ((65 <=? c)%N && (c <=? 90)%N)
    || ((97 <=? c)%N && (c <=? 122)%N) || (c =? 95)%N
  else uni_word c.

Definition is_space (c : char) : bool :=
  if (c <? 128)%N then
    ((9 <=? c)%N && (c <=? 13)%N) || ((28 <=? c)%N && (c <=? 32)%N)
  else uni_space c.

(** [[^\]]] *)
Definition not_rbracket (c : char) : bool := negb (c =? 93)%N.

(** [(\[%\w+link#)(\d+)(\s*[^\]]*\])] *)
Definition pattern : regex :=
  Cat (Group 1 (Cat (Chr 91%N) (Cat (Chr 37%N)
          (Cat (Plus is_word) (lit (codes "link") (Chr 35%N))))))
   (Cat (Group 2 (Plus is_digit))
        (Group 3 (Cat (Star is_space) (Cat (Star not_rbracket) (Chr 93%N))))).

(** A match of the pattern at the start of [s]: the groups and what
    follows the match. *)
Definition match_at (s : list char) : option (captures * list char) :=
  rmatch pattern s (λ _, []) (λ rest caps, Some (caps, rest)).

(** [re.sub]: the leftmost match is replaced and the scan resumes after
    it ([skip] counts the characters of a match still to pass over); where
    no match starts, the character is copied.  A match of this pattern is
    never empty. *)
Fixpoint sub_from (repl : captures → list char) (s : list char) (skip : nat)
  : list char :=
  match s with
  | [] => []
  | c :: s' =>
      match skip with
      | S n => sub_from repl s' n
      | O =>
          match match_at s with
          | Some (caps, rest) =>
              repl caps ++ sub_from repl s' (length s - length rest - 1)
          | None => c :: sub_from repl s' 0
          end
      end
  end.

Inductive tag_outcome :=
  | TagsRenumbered (updated_text : list char)
      (* the selection is replaced by [updated_text]; "완료" *)
  | InfoNoTagToChange      (* "선택된 텍스트에 변경할 수 있는 태그가 없습니다." *)
  | InfoSelectTextFirst    (* nothing selected, or an empty selection *)
  | TemplateEscape.
      (* [new_number] holds a backslash, which the replacement template
         reads as an escape: outside this model *)

(** [selection] is the text between [SEL_FIRST] and [SEL_LAST], [None]
    when the widget has no selection ([TclError]); [new_number] is the
    content of the spin box.  The template [\g<1>{new_number}\g<3>] puts
    [new_number] between the first and the third group. *)
Definition update_tag_numbers (selection : option (list char))
    (new_number : list char) : tag_outcome :=
  match selection with
  | None => InfoSelectTextFirst
  | Some [] => InfoSelectTextFirst
  | Some selected_text =>
      if existsb (λ c, (c =? 92)%N) new_number then TemplateEscape
      else
        let updated_text :=
          sub_from (λ caps, caps 1 ++ new_number ++ caps 3) selected_text 0 in
        if decide (updated_text ≠ selected_text)
        then TagsRenumbered updated_text
        else InfoNoTagToChange
  end.

End classes.

(** The words the pattern denotes, and the texts that hold one. *)
Fixpoint lang (r : regex) (w : list char) : Prop :=
  match r with
  | Chr c => w = [c]
  | Cat r1 r2 => ∃ u v, w = u ++ v ∧ lang r1 u ∧ lang r2 v
  | Star p => Forall (λ c, p c = true) w
  | Plus p => w ≠ [] ∧ Forall (λ c, p c = true) w
  | Group _ r => lang r w
  end.

Definition contains_tag (uni_word uni_digit uni_space : char → bool)
    (s : list char) : Prop :=
  ∃ before w after,
    s = before ++ w ++ after ∧ lang (pattern uni_word uni_digit uni_space) w.

End Tags.

(** ** Vocabulary of the properties *)

Section vocabulary.
Import GUI.

(** The sort key of a record, [x['id']]. *)
Definition storyline_id (s : storyline) : string :=
  default "" (attrs s !! "id").

(** A STORYLINE element that does not use the names of the two list keys
    of the record as XML attributes. *)
Definition plain_attributes (e : ET.element) : Prop :=
  ET.attrib e !! "required_data" = None ∧ ET.attrib e !! "articles" = None.

(** The STORYLINE elements of a document, when it has the container. *)
Definition storyline_elems (root : ET.element) : option (list ET.element) :=
  ET.findall "STORYLINE" <$> ET.find "STORYLINES" root.

(** The DATA_OBJECT and the ARTICLE elements of a STORYLINE element. *)
Definition data_objects (e : ET.element) : list ET.element :=
  from_option (ET.findall "DATA_OBJECT") [] (ET.find "REQUIRED_DATA" e).

Definition article_elems (e : ET.element) : list ET.element :=
  from_option (ET.findall "ARTICLE") [] (ET.find "ARTICLES" e).

Definition well_formed (root : ET.element) : Prop :=
  ∃ elems, storyline_elems root = Some elems ∧ Forall plain_attributes elems.

(** The entries of a dict whose value is not the empty string. *)
Definition nonempty_items (d : gmap string string) : gmap string string :=
  filter (λ kv, kv.2 ≠ "") d.




End vocabulary.

(** ** Vocabulary of the properties of written records *)

Section written_records.
Import GUI.


Definition list_or_empty {A : Type} (x : slot A) : Prop :=
  match x with
  | Items _ => True
  | Str t => t = ""
  end.

(** A record with the eleven scalar keys whose two list keys hold lists
    (or the empty string). *)
Definition writable (s : storyline) : Prop :=
  (∀ k, k ∈ "id" :: attributes → is_Some (attrs s !! k)) ∧
  list_or_empty (required_data s) ∧
  list_or_empty (articles s).

Definition no_empty_values (d : gmap string string) : Prop :=
  map_Forall (λ _ v, v ≠ "") d.

Definition canonical_article (a : article) : Prop :=
  modifiers a !! "id" = None ∧ no_empty_values (modifiers a).

(** A record as a load produces it from a written document: exactly the
    eleven scalar keys, participants and modifiers without empty values,
    no modifier named [id]. *)
Definition canonical_record (s : storyline) : Prop :=
  (∀ k, is_Some (attrs s !! k) ↔ k ∈ "id" :: attributes) ∧
  (∃ ds, required_data s = Items ds ∧ Forall no_empty_values ds) ∧
  (∃ arts, articles s = Items arts ∧ Forall canonical_article arts).

End written_records.

(** ** Adding an article and saving the open storyline

    [add_new_article], [save_current_article] and [save_storyline] of
    class ModernOOTPStorylineGUI.  The widgets are read, not modelled: the
    records below hold what the [get] of every variable returns when the
    function runs.  The functions return [self] as it is when they return
    or raise; what they draw is left out. *)

Module Editor.
Import GUI.

(** [f"article_{n}"] *)
Definition article_name (n : nat) : string := ("article_" ++ pretty n)%string.

Definition add_new_article (self : session) : session * result unit :=
  match current_storyline_index self with
  | None => (self, Ok ())
  | Some i =>
    match storylines self !! i with
    | None => (self, Raise IndexError)
    | Some storyline =>
      match articles storyline with
      | Str _ => (self, Raise AttributeError)   (* a [str] has no [append] *)
      | Items l =>
        let new_article := Article (article_name (length l + 1)) "" "" "" ∅ in
        let l' := l ++ [new_article] in
        let storyline' :=
          Storyline (attrs storyline) (required_data storyline) (Items l') in
        (Session (<[i := storyline']> (storylines self)) (Some i)
                 (Z.of_nat (length l') - 1),
         Ok ())
      end
    end
  end.

(** The article part of the edit screen: [article_id_var], [subject_var],
    [injury_var], the text [text_widget.get(1.0, tk.END)] returns, and the
    [StringVar] of every attribute of the grid. *)
Record article_fields := ArticleFields {
  article_id_var : string;
  subject_var : string;
  injury_var : string;
  text_widget : string;
  article_attributes : gmap string string
}.

(** The storyline part: six [StringVar]s, five [BooleanVar]s and
    [self.required_data_list]. *)
Record storyline_fields := StorylineFields {
  id_var : string;
  frequency_var : string;
  year_min_var : string;
  year_max_var : string;
  interval_var : string;
  trigger_var : string;
  season_var : bool;
  offseason_var : bool;
  spring_var : bool;
  minor_var : bool;
  once_var : bool;
  required_data_list : list (gmap string string)
}.

(** ['1' if var.get() else ''] *)
Definition flag (b : bool) : string := if b then "1" else "".

Section strip.
(** [str.strip] *)
Variable strip : string → string.

(** The modifiers collected from the grid: the stripped values that are
    not empty. *)
Definition collect_modifiers (f : article_fields) : gmap string string :=
  filter (λ kv, kv.2 ≠ "") (strip <$> article_attributes f).

Definition save_current_article (self : session) (f : article_fields)
  : session * result unit :=
  match current_storyline_index self with
  | None => (self, Ok ())
  | Some i =>
    if decide (0 ≤ current_article_index self)%Z then
      match storylines self !! i with
      | None => (self, Raise IndexError)
      | Some storyline =>
        let idx := Z.to_nat (current_article_index self) in
        match articles storyline with
        | Str t =>
            (* the article is a one-character [str]: no item assignment *)
            if decide (idx < py_len t) then (self, Raise TypeError)
            else (self, Ok ())
        | Items l =>
            if decide (idx < length l) then
              let article :=
                Article (article_id_var f) (subject_var f)
                        (strip (text_widget f)) (injury_var f)
                        (collect_modifiers f) in
              let storyline' :=
                Storyline (attrs storyline) (required_data storyline)
                          (Items (<[idx := article]> l)) in
              (Session (<[i := storyline']> (storylines self)) (Some i)
                       (current_article_index self),
               Ok ())
            else (self, Ok ())
        end
      end
    else (self, Ok ())
  end.

(** The dict literal of [save_storyline], less the two list keys. *)
Definition collect_scalars (f : storyline_fields) : gmap string string :=
  list_to_map
    [ ("id", id_var f); ("random_frequency", frequency_var f);
      ("league_year_min", year_min_var f); ("league_year_max", year_max_var f);
      ("only_in_season", flag (season_var f));
      ("only_in_offseason", flag (offseason_var f));
      ("only_in_spring", flag (spring_var f));
      ("is_minor_league", flag (minor_var f));
      ("storyline_happens_only_once", flag (once_var f));
      ("min_usage_interval_days", interval_var f);
      ("trigger_events", trigger_var f) ].

(** [save_storyline] up to its last statement, [self.show_main_screen()],
    which redraws the list and assigns nothing. *)
Definition save_storyline (self : session) (f : storyline_fields)
    (a : article_fields) : session * result unit :=
  match current_storyline_index self with
  | Some i =>
    match save_current_article self a with
    | (self, Raise x) => (self, Raise x)
    | (self, Ok _) =>
      match storylines self !! i with
      | None => (self, Raise IndexError)
      | Some current =>
        match articles current with
        | Str _ => (self, Raise AttributeError)   (* a [str] has no [copy] *)
        | Items l =>
          let storyline :=
            Storyline (collect_scalars f) (Items (required_data_list f))
                      (Items l) in
          (Session (<[i := storyline]> (storylines self)) (Some i)
                   (current_article_index self),
           Ok ())
        end
      end
    end
  | None =>
    let article :=
      Article (article_id_var a) (subject_var a) (strip (text_widget a))
              (injury_var a) ∅ in
    let storyline :=
      Storyline (collect_scalars f) (Items (required_data_list f))
                (Items [article]) in
    (Session (storylines self ++ [storyline]) None (current_article_index self),
     Ok ())
  end.

End strip.

End Editor.

(** ** The participant dialog (class RequiredDataDialog)

    The dialog as it is between [__init__] and the OK button when the user
    changes nothing: [type_var], [main_actor_var] and the [StringVar] of
    every attribute shown. *)

Module Dialog.
Import AttributeManager.

Record dialog := Dialog {
  type_var : string;
  main_actor_var : bool;
  attr_vars : gmap string string
}.

Section dialog.
Variable set_iteration : gset string → list string.
(** [ATTR_MANAGER.data_object_attributes] *)
Variable catalog : data_object_attributes.
(** [str.strip] *)
Variable strip : string → string.

(** One empty [StringVar] per attribute of the selected type. *)
Definition update_attributes (d : dialog) : dialog :=
  let attributes := get_attributes_for_type set_iteration catalog (type_var d) in
  Dialog (type_var d) (main_actor_var d)
         (foldl (λ vars attr, <[attr := ""]> vars) ∅ (py_sorted id attributes)).

Definition load_data (d : dialog) (data : gmap string string) : dialog :=
  map_fold (λ key value d,
      if decide (key = "type") then
        Dialog value (main_actor_var d) (attr_vars d)
      else if decide (key = "main_actor") then
        Dialog (type_var d) (bool_decide (value = "1")) (attr_vars d)
      else if decide (is_Some (attr_vars d !! key)) then
        Dialog (type_var d) (main_actor_var d) (<[key := value]> (attr_vars d))
      else d)
    d data.

(** [__init__]: [data] is [None] for a new participant. *)
Definition init (data : option (gmap string string)) : dialog :=
  let data := default ∅ data in           (* [data or {}] *)
  let d :=
    update_attributes
      (Dialog (default "PLAYER" (data !! "type"))
              (bool_decide (data !! "main_actor" = Some "1")) ∅) in
  if decide (data = ∅) then d else load_data d data.

Definition ok_clicked (d : dialog) : gmap string string :=
  filter (λ kv, kv.2 ≠ "") (strip <$> attr_vars d)
  ∪ ((if main_actor_var d then {[ "main_actor" := "1" ]} else ∅)
     ∪ {[ "type" := type_var d ]}).

End dialog.

End Dialog.

(** ** Inserting a template tag (insert_tag) *)

Module Insert.
Import Tags.

(** The tags of the twelve buttons of the content tab. *)
Definition tag_buttons : list (list char) :=
  codes <$>
    [ "[%personlink#1 f l]"; "[%personlink#1 l]"; "[%teamlink#1]";
      "[%citylink#1]"; "[%statlink#1]"; "[%datelink#1]"; "[%leaguelink#1]";
      "[%stadiumlink#1]"; "[%awardlink#1]"; "[%salarylink#1]";
      "[%recordlink#1]"; "[%agelink#1]" ].

Definition starts_with (old s : list char) : bool :=
  bool_decide (take (length old) s = old).

(** [s.replace(old, new)] for a non-empty [old]: every occurrence met from
    left to right is replaced and the scan resumes after it ([skip] counts
    the characters of an occurrence still to pass over). *)
Fixpoint replace_from (old new s : list char) (skip : nat) : list char :=
  match s with
  | [] => []
  | c :: s' =>
      match skip with
      | S n => replace_from old new s' n
      | O =>
          if starts_with old s
          then new ++ replace_from old new s' (length old - 1)
          else c :: replace_from old new s' 0
      end
  end.

(** [tag.replace("#1", f"#{current_number}")] *)
Definition updated_tag (current_number tag : list char) : list char :=
  replace_from (codes "#1") (codes "#" ++ current_number) tag 0.

(** [text] is the content of the text widget, [cursor] the offset of the
    insertion cursor in it and [current_number] the content of the spin
    box; the result is the content and the cursor after the insertion. *)
Definition insert_tag (text : list char) (cursor : nat)
    (current_number tag : list char) : list char * nat :=
  let updated_tag := updated_tag current_number tag in
  (take cursor text ++ updated_tag ++ drop cursor text,
   cursor + length updated_tag).

End Insert.

(** ** Vocabulary of the properties of tags *)

(** The first character of [s], if any, is not of the class. *)
Definition stops (p : Tags.char → bool) (s : list Tags.char) : Prop :=
  ∀ c s0, s = c :: s0 → p c = false.

(** ** The participants as shared objects

    A participant is a Python dict, an object: [load_storyline_to_fields]
    copies the list ['required_data'] of the open storyline, not the dicts
    in it, so [self.required_data_list] and the list of the record hold
    the same objects.  Here a dict is a reference into a store, and the
    functions that work on [self.required_data_list] are given on
    references.  They return [self] as it is when they return or raise;
    what they draw is left out, and so is the outcome, except for
    [set_main_actor]. *)

Module Shared.
Import GUI.

Definition ref := nat.

(** The store: the dict at every reference.  The references below
    [next_ref] are the objects that exist. *)
Definition store := ref → gmap string string.

Definition update (h : store) (r : ref) (d : gmap string string) : store :=
  λ r', if decide (r' = r) then d else h r'.

Record editor := Editor {
  objects : store;
  next_ref : ref;
  record_required_data : list ref;   (* [storyline['required_data']] *)
  required_data_list : list ref      (* [self.required_data_list] *)
}.

(** The dicts a list holds. *)
Definition deref (h : store) (l : list ref) : list (gmap string string) :=
  h <$> l.

(** [self.required_data_list = storyline.get('required_data', []).copy()] *)
Definition load_storyline_to_fields (e : editor) : editor :=
  Editor (objects e) (next_ref e) (record_required_data e)
         (record_required_data e).

(** [for data in l: if 'main_actor' in data: del data['main_actor']] *)
Definition clear_main_actor (h : store) (l : list ref) : store :=
  foldl (λ h r, update h r (delete "main_actor" (h r))) h l.

Definition set_main_actor (e : editor) (selected : list nat)
  : editor * result main_actor_outcome :=
  match selected with
  | [] => (e, Ok WarnSelectParticipant)
  | index :: _ =>
    let h := clear_main_actor (objects e) (required_data_list e) in
    match required_data_list e !! index with
    | None =>
        (Editor h (next_ref e) (record_required_data e) (required_data_list e),
         Raise IndexError)
    | Some r =>
      let h' := update h r (<["main_actor" := "1"]> (h r)) in
      (Editor h' (next_ref e) (record_required_data e) (required_data_list e),
       if forallb (λ d, bool_decide (is_Some (d !! "type")))
                  (deref h' (required_data_list e))
       then Ok MainActorSet else Raise KeyError)
    end
  end.

(** [result] is what the dialog returns: [None] when it was cancelled.
    The dict it returns is a new object. *)
Definition new_object (e : editor) (d : gmap string string) : store :=
  update (objects e) (next_ref e) d.

Definition add_required_data (e : editor) (result : option (gmap string string))
  : editor :=
  match result with
  | Some d =>
      if decide (d = ∅) then e
      else Editor (new_object e d) (S (next_ref e)) (record_required_data e)
                  (required_data_list e ++ [next_ref e])
  | None => e
  end.

Definition edit_required_data (e : editor) (selected : list nat)
    (result : option (gmap string string)) : editor :=
  match selected, result with
  | index :: _, Some d =>
      if decide (d = ∅) then e
      else if decide (index < length (required_data_list e)) then
        Editor (new_object e d) (S (next_ref e)) (record_required_data e)
               (<[index := next_ref e]> (required_data_list e))
      else e
  | _, _ => e
  end.

(** [askyesno] is the answer to the confirmation, which is asked once
    [data['type']] has been read. *)
Definition delete_required_data (e : editor) (selected : list nat)
    (askyesno : bool) : editor :=
  match selected with
  | index :: _ =>
      match required_data_list e !! index with
      | Some r =>
          if bool_decide (is_Some (objects e r !! "type")) && askyesno then
            Editor (objects e) (next_ref e) (record_required_data e)
                   (delete index (required_data_list e))
          else e
      | None => e
      end
  | [] => e
  end.

End Shared.

(** ** Deleting a storyline

    [delete_current_storyline] of the edit screen and
    [delete_selected_storyline_from_main] of the main screen.  [askyesno]
    is the answer to the confirmation if it is asked; the text of the
    confirmation is built first, and reads ['id'] and the title of the
    storyline.  The functions return [self] as it is when they return or
    raise, and what happened up to the redraw of the list
    ([show_main_screen], [update_storyline_list]), which assigns nothing. *)

Module Deletion.
Import GUI.

Inductive outcome :=
  | StorylineDeleted
  | Declined              (* the confirmation was answered "no" *)
  | InfoNewStoryline      (* showinfo: a storyline being added is not deleted *)
  | NotViewable           (* the main screen is not shown *)
  | InfoSelectStoryline   (* showinfo: nothing is selected *)
  | ErrorNotFound.        (* showerror *)

Definition delete_current_storyline (self : session) (askyesno : bool)
  : session * result outcome :=
  match current_storyline_index self with
  | None => (self, Ok InfoNewStoryline)
  | Some i =>
    match storylines self !! i with
    | None => (self, Raise IndexError)
    | Some storyline =>
      match getitem storyline "id" with
      | Raise x => (self, Raise x)
      | Ok _ =>
        if title_raises storyline then (self, Raise TypeError)
        else if askyesno then
          (Session (delete i (storylines self)) (Some i)
                   (current_article_index self),
           Ok StorylineDeleted)
        else (self, Ok Declined)
      end
    end
  end.


End Deletion.

(** * Properties *)

(** ** Sorting *)

Section sorting.
Context {A : Type} (key : A → string).

Lemma insert_sorted_perm x l : insert_sorted key x l ≡ₚ x :: l.
Proof.
  induction l as [|y l IH]; simpl; [done|].
  case_decide; [done|]. rewrite IH. apply perm_swap.
Qed.

Lemma py_sorted_perm l : py_sorted key l ≡ₚ l.
Proof.
  induction l as [|x l IH]; simpl; [done|].
  by rewrite insert_sorted_perm, IH.
Qed.

Lemma insert_sorted_sorted x l :
  StronglySorted (key_le key) l → StronglySorted (key_le key) (insert_sorted key x l).
Proof.
  induction 1 as [|y l Hl IH Hy]; simpl.
  - repeat constructor.
  - case_decide as Hxy.
    + constructor; [by constructor|]. constructor; [done|].
      eapply Forall_impl; [exact Hy|]. intros z Hz. unfold key_le in *. by etrans.
    + constructor; [done|].
      rewrite insert_sorted_perm. constructor; [|done].
      unfold key_le. by destruct (total String.le (key x) (key y)).
Qed.

Lemma py_sorted_sorted l : StronglySorted (key_le key) (py_sorted key l).
Proof.
  induction l; simpl; [constructor|]. by apply insert_sorted_sorted.
Qed.


End sorting.

(** ** The attribute catalog *)

Section catalog.
Import AttributeManager.

Lemma enumerates_elements : enumerates elements.
Proof.
  intros X. split; [apply NoDup_elements|]. intros x. apply elem_of_elements.
Qed.

Lemma strict_sorted_of_NoDup (l : list string) :
  NoDup l → StronglySorted (key_le id) l → StronglySorted (strict String.le) l.
Proof.
  intros Hnd Hs. induction Hs as [|x l Hl IH Hx]; [constructor|].
  apply NoDup_cons in Hnd as [Hx' Hnd]. constructor; [by apply IH|].
  apply Forall_forall. intros y Hy. rewrite Forall_forall in Hx.
  apply strict_spec_alt. split; [by apply Hx|]. intros ->. done.
Qed.

(** C10: [get_attributes_for_type] returns, whatever order the set is
    enumerated in, a list without duplicates, in strictly ascending
    lexicographic order, whose members are exactly the common attributes
    and the attributes of the given type; the result is the same for any
    other enumeration order and any reordering of the two catalog lists. *)
Theorem get_attributes_for_type_sorted_union
    (it : gset string → list string) (data : data_object_attributes)
    (obj_type : string) :
  enumerates it →
  let common_attrs d := default [] (common d) in
  let specific_attrs d := default [] (default ∅ (by_type d) !! obj_type) in
  let attrs := get_attributes_for_type it data obj_type in
  NoDup attrs ∧
  StronglySorted (strict String.le) attrs ∧
  (∀ x, x ∈ attrs ↔ x ∈ common_attrs data ∨ x ∈ specific_attrs data) ∧
  (∀ it' data',
     enumerates it' →
     common_attrs data' ≡ₚ common_attrs data →
     specific_attrs data' ≡ₚ specific_attrs data →
     get_attributes_for_type it' data' obj_type = attrs).
Proof.
  intros Hit common_attrs specific_attrs attrs.
  assert (Hmem : ∀ it0 d, enumerates it0 → ∀ x,
            x ∈ get_attributes_for_type it0 d obj_type
            ↔ x ∈ common_attrs d ∨ x ∈ specific_attrs d).
  { intros it0 d H0 x. unfold get_attributes_for_type.
    rewrite py_sorted_perm. destruct (H0 (list_to_set
      (default [] (common d) ++ default [] (default ∅ (by_type d) !! obj_type))))
      as [_ ->].
    rewrite elem_of_list_to_set, elem_of_app. done. }
  assert (Hnd : ∀ it0 d, enumerates it0 →
            NoDup (get_attributes_for_type it0 d obj_type)).
  { intros it0 d H0. unfold get_attributes_for_type.
    rewrite py_sorted_perm. apply H0. }
  assert (Hss : ∀ it0 d, enumerates it0 →
     StronglySorted (strict String.le) (get_attributes_for_type it0 d obj_type)).
  { intros it0 d H0. apply strict_sorted_of_NoDup; [by apply Hnd|].
    apply py_sorted_sorted. }
  split; [by apply Hnd|]. split; [by apply Hss|]. split; [by apply Hmem|].
  intros it' data' Hit' Hc Hs.
  apply (StronglySorted_unique_strong (strict String.le)); [|by apply Hss..|].
  { intros x1 x2 _ _ [H12 H21] [H21' _]. done. }
  apply NoDup_Permutation; [by apply Hnd..|].
  intros x. unfold attrs. rewrite !Hmem by done.
  pose proof (elem_of_Permutation_proper x _ _ Hc) as Hc'.
  pose proof (elem_of_Permutation_proper x _ _ Hs) as Hs'.
  unfold common_attrs, specific_attrs in *. tauto.
Qed.

Lemma get_attributes_for_type_sorted_union_witness :
  let data := {| by_type := Some {[ "PLAYER" := ["age_min"; "position"] ]};
                 common := Some ["position"; "id"] |} in
  enumerates elements ∧
  StronglySorted (strict String.le)
    (get_attributes_for_type elements data "PLAYER").
Proof.
  intros data. split; [exact enumerates_elements|].
  exact (proj1 (proj2 (get_attributes_for_type_sorted_union
                         elements data "PLAYER" enumerates_elements))).
Defined.

Example get_attributes_for_type_player :
  get_attributes_for_type elements
    {| by_type := Some {[ "PLAYER" := ["age_min"; "position"] ]};
       common := Some ["position"; "id"] |} "PLAYER"
  = ["age_min"; "id"; "position"].
Proof. vm_compute. reflexivity. Qed.

End catalog.

(** ** Editor operations *)

Section editor.
Import GUI.

(** C9: after [set_main_actor] with entry [i] selected, entry [i] is the
    main actor and no other entry carries the key, whatever was flagged
    before; the entries keep their other attributes. *)
Theorem set_main_actor_exclusive
    (required_data_list : list (gmap string string)) (i : nat)
    (more_selected : list nat) :
  i < length required_data_list →
  let after := (set_main_actor required_data_list (i :: more_selected)).1 in
  length after = length required_data_list ∧
  (∃ d, after !! i = Some d ∧ is_main_actor d) ∧
  (∀ j d, j ≠ i → after !! j = Some d →
     d !! "main_actor" = None ∧ ¬ is_main_actor d) ∧
  (∀ j, after !! j ≫= (λ d, Some (delete "main_actor" d))
        = required_data_list !! j ≫= (λ d, Some (delete "main_actor" d))).
Proof.
  intros Hi after. subst after. unfold set_main_actor.
  destruct (lookup_lt_is_Some_2 (delete "main_actor" <$> required_data_list) i)
    as [d Hd]; [by rewrite length_fmap|].
  rewrite Hd. simpl.
  split; [by rewrite length_insert, length_fmap|].
  split.
  { eexists. split.
    - apply list_lookup_insert_eq. by rewrite length_fmap.
    - unfold is_main_actor. by rewrite lookup_insert_eq. }
  split.
  { intros j d' Hj. rewrite list_lookup_insert_ne by done.
    rewrite list_lookup_fmap. intros Hd'.
    destruct (required_data_list !! j) as [d0|]; simplify_eq/=.
    unfold is_main_actor. rewrite lookup_delete_eq. done. }
  intros j. destruct (decide (j = i)) as [->|Hj].
  - rewrite list_lookup_insert_eq by (by rewrite length_fmap).
    rewrite list_lookup_fmap in Hd.
    destruct (required_data_list !! i) as [d0|]; simplify_eq/=.
    by rewrite delete_insert_eq, delete_delete_eq.
  - rewrite list_lookup_insert_ne by done. rewrite list_lookup_fmap.
    destruct (required_data_list !! j) as [d0|]; simpl; [|done].
    by rewrite delete_delete_eq.
Qed.

Lemma set_main_actor_exclusive_witness :
  let before : list (gmap string string) :=
    [ {[ "type" := "PLAYER"; "main_actor" := "1" ]}; {[ "type" := "TEAM" ]} ] in
  1 < length before ∧
  ∃ d, (set_main_actor before [1]).1 !! 1 = Some d ∧ is_main_actor d.
Proof.
  intros before. split; [simpl; lia|].
  apply (set_main_actor_exclusive before 1 []). simpl; lia.
Defined.

(** C8: with a storyline open whose only article is [a], deleting the
    current article shows the warning and changes nothing: the storyline
    still has exactly that one article. *)
Theorem delete_sole_article_rejected
    (self : session) (i : nat) (s : storyline) (a : article) (askyesno : bool) :
  current_storyline_index self = Some i →
  (0 ≤ current_article_index self)%Z →
  storylines self !! i = Some s →
  articles s = Items [a] →
  delete_current_article self askyesno = (self, Ok WarnAtLeastOneArticle) ∧
  ∃ s', storylines (delete_current_article self askyesno).1 !! i = Some s' ∧
        ∃ l, articles s' = Items l ∧ length l = 1.
Proof.
  intros Hi Hidx Hs Ha.
  assert (delete_current_article self askyesno = (self, Ok WarnAtLeastOneArticle))
    as Heq.
  { unfold delete_current_article. rewrite Hi.
    destruct (decide (0 ≤ current_article_index self)%Z); [|done].
    rewrite Hs, Ha. reflexivity. }
  split; [done|]. rewrite Heq. simpl. exists s. split; [done|].
  exists [a]. done.
Qed.

Lemma delete_sole_article_rejected_witness :
  let a := Article "article_1" "Trade rumours" "" "" ∅ in
  let s := Storyline {[ "id" := "s1" ]} (Items []) (Items [a]) in
  let self := Session [s] (Some 0) 0 in
  delete_current_article self true = (self, Ok WarnAtLeastOneArticle).
Proof.
  intros a s self.
  refine (proj1 (delete_sole_article_rejected self 0 s a true _ _ _ _));
    [reflexivity | simpl; lia | reflexivity | reflexivity].
Defined.

(** With two articles the same request, once confirmed, deletes. *)
Example delete_one_of_two :
  let a := Article "article_1" "" "" "" ∅ in
  let b := Article "article_2" "" "" "" ∅ in
  let s l := Storyline {[ "id" := "s1" ]} (Items []) (Items l) in
  delete_current_article (Session [s [a; b]] (Some 0) 1) true
  = (Session [s [a]] (Some 0) 0, Ok ArticleDeleted).
Proof. reflexivity. Qed.

(** C2: opening a document whose root has no STORYLINES child raises the
    [ValueError], but [self.storylines] has been emptied before the
    element is looked for: whatever was loaded is gone.  A file that
    [ET.parse] rejects leaves it alone. *)
Theorem parse_xml_file_missing_container_clears
    (previous : list storyline) (attrib : gmap string string)
    (text : option string) :
  parse_xml_file previous (Some (ET.Element "STORYLINE_DATABASE" attrib text []))
  = ([], Raise ValueError) ∧
  parse_xml_file previous None = (previous, Raise ParseError).
Proof. split; reflexivity. Qed.

Lemma parse_xml_file_no_container (previous : list storyline) (root : ET.element) :
  ET.find "STORYLINES" root = None →
  parse_xml_file previous (Some root) = ([], Raise ValueError).
Proof. intros H. unfold parse_xml_file. by rewrite H. Qed.

End editor.

(** ** Tag renumbering *)

Section tags.
Import Tags.
Variables uni_word uni_digit uni_space : char → bool.

Local Abbreviation pattern := (Tags.pattern uni_word uni_digit uni_space).
Local Abbreviation match_at := (Tags.match_at uni_word uni_digit uni_space).
Local Abbreviation sub_from := (Tags.sub_from uni_word uni_digit uni_space).
Local Abbreviation contains_tag := (Tags.contains_tag uni_word uni_digit uni_space).
Local Abbreviation update_tag_numbers :=
  (Tags.update_tag_numbers uni_word uni_digit uni_space).

(** Whatever greedy repetition hands to the rest of the pattern, it has
    consumed characters of the class only. *)
Lemma greedy_sound {R} (p : char → bool) s (k : list char → option R) res :
  greedy p s k = Some res →
  ∃ w s', s = w ++ s' ∧ Forall (λ c, p c = true) w ∧ k s' = Some res.
Proof.
  revert res. induction s as [|c s IH]; intros res; simpl.
  - intros H. by exists [], [].
  - destruct (p c) eqn:Hc.
    + destruct (greedy p s k) as [r|] eqn:Hg.
      * intros [= <-]. destruct (IH r eq_refl) as (w & s' & -> & Hw & Hk).
        exists (c :: w), s'. split; [done|]. split; [by constructor|done].
      * intros H. by exists [], (c :: s).
    + intros H. by exists [], (c :: s).
Qed.

(** A successful match splits the input into a word of the pattern and
    the text the continuation accepted. *)
Lemma rmatch_sound {R} r : ∀ s caps (k : list char → captures → option R) res,
  rmatch r s caps k = Some res →
  ∃ w s' caps', s = w ++ s' ∧ lang r w ∧ k s' caps' = Some res.
Proof.
  induction r as [c|r1 IH1 r2 IH2|p|p|n r IH]; intros s caps k res; simpl.
  - destruct s as [|c' s]; [done|]. case_decide as Hc; [|done]. subst c'.
    intros H. by exists [c], s, caps.
  - intros H. apply IH1 in H as (u & s1 & caps1 & -> & Hu & H).
    apply IH2 in H as (v & s2 & caps2 & -> & Hv & H).
    exists (u ++ v), s2, caps2. rewrite <-(assoc_L (++)). eauto 10.
  - intros H. apply greedy_sound in H as (w & s' & -> & Hw & H).
    by exists w, s', caps.
  - destruct s as [|c s]; [done|]. destruct (p c) eqn:Hc; [|done].
    intros H. apply greedy_sound in H as (w & s' & -> & Hw & H).
    exists (c :: w), s', caps. split; [done|]. split; [|done].
    split; [done|]. by constructor.
  - intros H. apply IH in H as (w & s' & caps' & -> & Hw & H).
    eauto 10.
Qed.

Lemma match_at_sound s caps rest :
  match_at s = Some (caps, rest) → ∃ w, s = w ++ rest ∧ lang pattern w.
Proof.
  unfold Tags.match_at. intros H.
  apply rmatch_sound in H as (w & s' & caps' & -> & Hw & [= _ <-]). eauto.
Qed.

(** Where no match starts at any position, [re.sub] copies the text. *)
Lemma sub_from_no_match repl s :
  (∀ before t, s = before ++ t → match_at t = None) →
  sub_from repl s 0 = s.
Proof.
  induction s as [|c s IH]; intros H; simpl; [done|].
  rewrite (H [] (c :: s) eq_refl). f_equal. apply IH.
  intros before t ->. by apply (H (c :: before)).
Qed.

Lemma sub_from_without_tag repl s :
  ¬ contains_tag s → sub_from repl s 0 = s.
Proof.
  intros Hno. apply sub_from_no_match. intros before t ->.
  destruct (match_at t) as [[caps rest]|] eqn:Hm; [|done].
  apply match_at_sound in Hm as (w & -> & Hw).
  destruct Hno. by exists before, w, rest.
Qed.

(** C7: renumbering ["[%personlink#1 f l] scored"] to 3 replaces the
    selection by ["[%personlink#3 f l] scored"]; on a selected text that
    holds no tag, with a number free of backslashes, the text [re.sub]
    returns is the selected text itself, nothing is replaced, and the
    information dialog about no tag to change is shown. *)
Theorem update_tag_numbers_renumbers :
  update_tag_numbers (Some (codes "[%personlink#1 f l] scored")) (codes "3")
  = TagsRenumbered (codes "[%personlink#3 f l] scored") ∧
  ∀ selected_text new_number,
    selected_text ≠ [] →
    Forall (λ c, c ≠ 92%N) new_number →
    ¬ contains_tag selected_text →
    sub_from (λ caps, caps 1 ++ new_number ++ caps 3) selected_text 0
    = selected_text ∧
    update_tag_numbers (Some selected_text) new_number = InfoNoTagToChange.
Proof.
  split; [vm_compute; reflexivity|].
  intros selected_text new_number Hne Hnum Hno.
  pose proof (sub_from_without_tag (λ caps, caps 1 ++ new_number ++ caps 3)
                _ Hno) as Hsub.
  split; [done|]. unfold Tags.update_tag_numbers.
  destruct selected_text as [|c s]; [done|].
  assert (existsb (λ c, (c =? 92)%N) new_number = false) as ->.
  { apply not_true_is_false. intros (c' & Hin & Hc')%existsb_exists.
    apply N.eqb_eq in Hc'. rewrite Forall_forall in Hnum.
    apply (Hnum c'); [by apply list_elem_of_In|done]. }
  destruct (decide _) as [Hd|]; [|done]. exfalso. apply Hd. exact Hsub.
Qed.

(** Every tag of the selection gets the number, whatever it had. *)
Example renumber_every_tag :
  update_tag_numbers (Some (codes "[%teamlink#1] beat [%teamlink#12 x]"))
                     (codes "2")
  = TagsRenumbered (codes "[%teamlink#2] beat [%teamlink#2 x]").
Proof. vm_compute. reflexivity. Qed.

(** The comparison is on the text: a tag that has the number already
    leaves the text as it is, and is reported like a text without tag. *)
Example renumber_to_same_number :
  update_tag_numbers (Some (codes "[%teamlink#3]")) (codes "3")
  = InfoNoTagToChange.
Proof. vm_compute. reflexivity. Qed.

Example renumber_without_selection :
  update_tag_numbers None (codes "3") = InfoSelectTextFirst.
Proof. reflexivity. Qed.

End tags.

Lemma update_tag_numbers_renumbers_witness :
  let ascii_only (c : Tags.char) := false in
  Tags.update_tag_numbers ascii_only ascii_only ascii_only
    (Some (Tags.codes "He scored twice [today]")) (Tags.codes "3")
  = Tags.InfoNoTagToChange.
Proof.
  intros ascii_only.
  refine (proj2 (proj2 (update_tag_numbers_renumbers ascii_only ascii_only
            ascii_only) (Tags.codes "He scored twice [today]")
            (Tags.codes "3") _ _ _)).
  - discriminate.
  - repeat constructor; discriminate.
  - intros (before & w & after & Heq & Hw).
    destruct Hw as (g1 & g23 & -> & Hg1 & _).
    destruct Hg1 as (lb & r1 & -> & -> & pc & r2 & -> & -> & _).
    revert Heq. clear.
    do 24 (destruct before as [|? before]; [discriminate|
             try (intros [= _ Heq]; revert Heq)]).
Defined.

(** ** Parsing a STORYLINE element *)

Section parsing.
Import GUI.

Lemma attribute_loop (attrib : gmap string string) :
  let s := map_fold (λ k v s, setitem s k v)
                    (Storyline ∅ (Items []) (Items [])) attrib in
  attrs s = delete "required_data" (delete "articles" attrib) ∧
  required_data s = from_option Str (Items []) (attrib !! "required_data") ∧
  articles s = from_option Str (Items []) (attrib !! "articles").
Proof.
  apply (map_fold_weak_ind (λ s m,
    attrs s = delete "required_data" (delete "articles" m) ∧
    required_data s = from_option Str (Items []) (m !! "required_data") ∧
    articles s = from_option Str (Items []) (m !! "articles"))).
  - rewrite !delete_empty, !lookup_empty. done.
  - intros k v m s Hk (Ha & Hr & Hart). unfold setitem.
    destruct (decide (k = "required_data")) as [->|Hk1]; simpl.
    { rewrite lookup_insert_eq, lookup_insert_ne by done. simpl.
      split; [|done]. rewrite Ha.
      by rewrite delete_insert_ne, delete_insert_eq by done. }
    destruct (decide (k = "articles")) as [->|Hk2]; simpl.
    { rewrite lookup_insert_eq, lookup_insert_ne by done. simpl.
      split; [|done]. rewrite Ha. by rewrite delete_insert_eq. }
    rewrite !lookup_insert_ne by done. split; [|done].
    rewrite Ha. by rewrite !delete_insert_ne by done.
Qed.

Lemma default_loop (dl : list (string * string)) : ∀ s,
  Forall (λ kv, kv.1 ≠ "required_data" ∧ kv.1 ≠ "articles") dl →
  attrs (foldl set_default s dl) = attrs s ∪ list_to_map dl ∧
  required_data (foldl set_default s dl) = required_data s ∧
  articles (foldl set_default s dl) = articles s.
Proof.
  induction dl as [|[k v] dl IH]; intros s Hdl; simpl.
  { by rewrite (right_id_L ∅ (∪)). }
  apply Forall_cons in Hdl as [[Hk1 Hk2] Hdl]. simpl in *.
  destruct (IH (set_default s (k, v)) Hdl) as (-> & -> & ->).
  unfold set_default, contains, setitem. simpl.
  rewrite !bool_decide_eq_false_2 by done. simpl.
  rewrite !decide_False by done.
  case_bool_decide as Hin; simpl.
  - split; [|done]. apply map_eq. intros j. rewrite !lookup_union.
    destruct (decide (j = k)) as [->|Hj].
    + destruct Hin as [x ->]. rewrite lookup_insert_eq.
      by destruct (list_to_map dl !! k).
    + by rewrite lookup_insert_ne.
  - split; [|done]. apply eq_None_not_Some in Hin.
    apply map_eq. intros j. rewrite !lookup_union.
    destruct (decide (j = k)) as [->|Hj].
    + rewrite !lookup_insert_eq, Hin. by destruct (list_to_map dl !! k).
    + by rewrite !lookup_insert_ne.
Qed.

Lemma append_required_data_loop (elems : list ET.element) : ∀ s l,
  required_data s = Items l →
  for_each append_required_data s elems
  = Ok (Storyline (attrs s) (Items (l ++ (ET.attrib <$> elems))) (articles s)).
Proof.
  induction elems as [|e elems IH]; intros [a r arts] l Hr; simpl in *.
  { by rewrite Hr, (right_id_L [] (++)). }
  unfold append_required_data at 1. simpl. rewrite Hr. simpl.
  rewrite (IH _ (l ++ [ET.attrib e])) by done. simpl.
  by rewrite <-(assoc_L (++)).
Qed.

Lemma append_article_loop (elems : list ET.element) : ∀ s l,
  articles s = Items l →
  for_each append_article s elems
  = Ok (Storyline (attrs s) (required_data s)
                  (Items (l ++ (parse_article <$> elems)))).
Proof.
  induction elems as [|e elems IH]; intros [a r arts] l Hr; simpl in *.
  { by rewrite Hr, (right_id_L [] (++)). }
  unfold append_article at 1. simpl. rewrite Hr. simpl.
  rewrite (IH _ (l ++ [parse_article e])) by done. simpl.
  by rewrite <-(assoc_L (++)).
Qed.

(** The record of an element with plain attributes: the attributes of the
    element, the defaults for the missing ones, the attribute sets of the
    DATA_OBJECT elements and the parsed ARTICLE elements. *)
Lemma parse_storyline_element_plain (e : ET.element) :
  plain_attributes e →
  parse_storyline_element e
  = Ok (Storyline (ET.attrib e ∪ list_to_map defaults)
                  (Items (ET.attrib <$> data_objects e))
                  (Items (parse_article <$> article_elems e))).
Proof.
  intros [Hr Ha]. unfold parse_storyline_element.
  destruct (attribute_loop (ET.attrib e)) as (H1 & H2 & H3).
  destruct (default_loop defaults
    (map_fold (λ k v s, setitem s k v) (Storyline ∅ (Items []) (Items []))
              (ET.attrib e))) as (D1 & D2 & D3).
  { unfold defaults. repeat (constructor; [done|]). constructor. }
  rewrite H1 in D1. rewrite H2, Hr in D2. rewrite H3, Ha in D3.
  cbn [from_option] in D2, D3.
  unfold plain_attributes in *.
  rewrite (delete_id _ "articles"), (delete_id _ "required_data") in D1 by done.
  set (s2 := foldl set_default _ defaults) in *. clearbody s2.
  set (dm := list_to_map defaults : gmap string string) in *. clearbody dm.
  destruct s2 as [a r ar]. cbn [attrs required_data articles] in D1, D2, D3.
  subst a r ar. unfold data_objects, article_elems.
  destruct (ET.find "REQUIRED_DATA" e) as [rd|]; cbn [from_option].
  - rewrite (append_required_data_loop _ _ []) by done.
    cbn [mbind result_bind attrs required_data articles app].
    destruct (ET.find "ARTICLES" e) as [ar|]; cbn [from_option]; [|done].
    by rewrite (append_article_loop _ _ []) by done.
  - cbn [mbind result_bind].
    destruct (ET.find "ARTICLES" e) as [ar|]; cbn [from_option]; [|done].
    by rewrite (append_article_loop _ _ []) by done.
Qed.

End parsing.

(** ** Serializing a record *)

Section serializing.
Import GUI.

(** What the loop over [attributes] leaves in the attribute set. *)
Lemma set_if_nonempty_loop (s : storyline) (al : list string) : ∀ a a',
  for_each (set_if_nonempty s) a al = Ok a' →
  ∀ k, a' !! k =
       if decide (k ∈ al) then
         match attrs s !! k with
         | Some v => if decide (v = "") then a !! k else Some v
         | None => a !! k
         end
       else a !! k.
Proof.
  induction al as [|x al IH]; intros a a'; simpl.
  { intros [= <-] k.
    destruct (decide (k ∈ [])) as [H|]; [by apply elem_of_nil in H|done]. }
  destruct (set_if_nonempty s a x) as [a1|] eqn:Hstep; simpl; [|done].
  unfold set_if_nonempty, getitem in Hstep.
  destruct (attrs s !! x) as [v|] eqn:Hx; simpl in Hstep; [|done].
  injection Hstep as Hstep.
  intros H k. rewrite (IH _ _ H k). clear IH H.
  set (a2 := if decide (v = "") then a else <[x:=v]> a) in *. subst a1.
  rename a2 into a1.
  destruct (decide (k = x)) as [->|Hk].
  - assert (a1 !! x = if decide (v = "") then a !! x else Some v) as Ha1.
    { unfold a1. destruct (decide (v = "")); [done|]. by rewrite lookup_insert_eq. }
    rewrite Hx, Ha1.
    destruct (decide (x ∈ x :: al)) as [_|Hn];
      [|destruct Hn; apply list_elem_of_here].
    by destruct (decide (x ∈ al)), (decide (v = "")).
  - assert (a1 !! k = a !! k) as ->.
    { unfold a1. destruct (decide (v = "")); [done|]. by rewrite lookup_insert_ne. }
    destruct (decide (k ∈ al)) as [Hin|Hin], (decide (k ∈ x :: al)) as [Hin'|Hin'];
      try done.
    + destruct Hin'. by apply list_elem_of_further.
    + apply elem_of_cons in Hin' as [?|?]; done.
Qed.

Lemma set_if_nonempty_loop_ok (s : storyline) (al : list string) : ∀ a,
  (∀ k, k ∈ al → is_Some (attrs s !! k)) →
  ∃ a', for_each (set_if_nonempty s) a al = Ok a'.
Proof.
  induction al as [|x al IH]; intros a Hal; simpl; [by eexists|].
  assert (∃ a1, set_if_nonempty s a x = Ok a1) as [a1 ->].
  { unfold set_if_nonempty, getitem.
    destruct (Hal x) as [v ->]; [apply list_elem_of_here|]. by eexists. }
  simpl. apply IH. intros k Hk. apply Hal. by apply list_elem_of_further.
Qed.

Lemma bind_Ok {A B : Type} (m : result A) (f : A → result B) (b : B) :
  m ≫= f = Ok b → ∃ a, m = Ok a ∧ f a = Ok b.
Proof. destruct m as [a|x]; [|done]. intros H. by exists a. Qed.

(** The parts of a serialized record. *)
Lemma storyline_element_inv (s : storyline) (e : ET.element) :
  storyline_element s = Ok e →
  ∃ id a rd arts,
    attrs s !! "id" = Some id ∧
    for_each (set_if_nonempty s) {[ "id" := id ]} attributes = Ok a ∧
    required_data_children s = Ok rd ∧
    articles_children s = Ok arts ∧
    e = ET.Element "STORYLINE" a None (rd ++ arts).
Proof.
  unfold storyline_element.
  intros (id & Hid & H)%bind_Ok. apply bind_Ok in H as (a & Ha & H).
  apply bind_Ok in H as (rd & Hrd & H). apply bind_Ok in H as (arts & Harts & H).
  injection H as <-. exists id, a, rd, arts.
  unfold getitem in Hid. destruct (attrs s !! "id"); [|done].
  injection Hid as ->. done.
Qed.

Lemma attributes_not_reserved (k : string) :
  k ∈ attributes → k ≠ "id" ∧ k ≠ "required_data" ∧ k ≠ "articles".
Proof.
  unfold attributes. rewrite !elem_of_cons, elem_of_nil. intros H.
  repeat (destruct H as [->|H]; [by repeat split|]). done.
Qed.

(** The XML attributes of a serialized record: [id], and those of the ten
    listed attributes whose value is not the empty string. *)
Lemma storyline_element_attrib (s : storyline) (e : ET.element) :
  storyline_element s = Ok e →
  ∀ k, ET.attrib e !! k =
       if decide (k = "id") then attrs s !! "id"
       else if decide (k ∈ attributes) then
         attrs s !! k ≫= λ v, if decide (v = "") then None else Some v
       else None.
Proof.
  intros (id & a & rd & arts & Hid & Ha & _ & _ & ->)%storyline_element_inv k.
  cbn [ET.attrib]. rewrite (set_if_nonempty_loop _ _ _ _ Ha k).
  destruct (decide (k = "id")) as [->|Hk].
  - destruct (decide ("id" ∈ attributes)) as [Hin|_].
    { by apply attributes_not_reserved in Hin as [? _]. }
    by rewrite lookup_singleton_eq.
  - rewrite lookup_singleton_ne by done.
    destruct (decide (k ∈ attributes)); [|done].
    destruct (attrs s !! k) as [v|]; [|done].
    cbn [mbind option_bind]. by destruct (decide (v = "")).
Qed.

Lemma storyline_element_plain (s : storyline) (e : ET.element) :
  storyline_element s = Ok e → plain_attributes e.
Proof.
  intros H. split; rewrite (storyline_element_attrib _ _ H);
    (destruct (decide _) as [|_]; [done|]);
    (destruct (decide _) as [Hin|_]; [|done]);
    apply attributes_not_reserved in Hin; by destruct Hin as (? & ? & ?).
Qed.

End serializing.

(** ** The scalar attributes of a record *)

Section scalar_attributes.
Import GUI.

(** C3: the record parsed from [<STORYLINE id="s1" custom_flag="7"/>]
    holds [custom_flag] with its value, and the element written for that
    record does not carry it: the serializer goes through its fixed list
    of ten names, while for participants and articles it writes whatever
    entries the dict has. *)
Theorem unknown_attribute_parsed_not_emitted :
  let elem := ET.Element "STORYLINE"
                {[ "id" := "s1"; "custom_flag" := "7" ]} None [] in
  ∃ s e,
    parse_storyline_element elem = Ok s ∧
    attrs s !! "custom_flag" = Some "7" ∧
    storyline_element s = Ok e ∧
    ET.attrib e !! "id" = Some "s1" ∧
    ET.attrib e !! "custom_flag" = None.
Proof.
  eexists _, _. split; [vm_compute; reflexivity|].
  split; [vm_compute; reflexivity|].
  split; [vm_compute; reflexivity|].
  split; vm_compute; reflexivity.
Qed.

Lemma defaults_lookup (k : string) :
  k ∈ "id" :: attributes →
  (list_to_map defaults : gmap string string) !! k = Some "".
Proof.
  unfold attributes. rewrite !elem_of_cons, elem_of_nil. intros H.
  repeat (destruct H as [->|H]; [vm_compute; reflexivity|]). done.
Qed.

(** C4, as the code has it: a record with [id] the empty string is written
    with an [id] attribute all the same. *)
Lemma empty_id_is_emitted :
  ∃ s e,
    parse_storyline_element (ET.Element "STORYLINE" ∅ None []) = Ok s ∧
    attrs s !! "id" = Some "" ∧
    storyline_element s = Ok e ∧
    ET.attrib e !! "id" = Some "".
Proof.
  eexists _, _. split; [vm_compute; reflexivity|].
  split; [vm_compute; reflexivity|].
  split; vm_compute; reflexivity.
Qed.

(** C4 amended: in the element written for a record, each of the ten
    attributes other than [id] whose value is the empty string is absent,
    [id] carries the value of the record even when that is the empty
    string, and parsing the element gives a record in which every one of
    the eleven that was the empty string is the empty string again. *)
Theorem empty_scalar_omitted_and_restored (s : storyline) (e : ET.element) :
  storyline_element s = Ok e →
  (∀ k, k ∈ attributes → attrs s !! k = Some "" → ET.attrib e !! k = None) ∧
  ET.attrib e !! "id" = attrs s !! "id" ∧
  ∃ s', parse_storyline_element e = Ok s' ∧
        ∀ k, k ∈ "id" :: attributes →
             attrs s !! k = Some "" → attrs s' !! k = Some "".
Proof.
  intros He. pose proof (storyline_element_attrib _ _ He) as Hattr.
  split.
  { intros k Hk Hempty. rewrite Hattr.
    destruct (attributes_not_reserved _ Hk) as (Hid & _).
    rewrite decide_False, decide_True, Hempty by done. done. }
  split.
  { rewrite Hattr. by rewrite decide_True. }
  eexists. split.
  { apply parse_storyline_element_plain. by eapply storyline_element_plain. }
  intros k Hk Hempty. cbn [attrs]. rewrite lookup_union, Hattr.
  rewrite (defaults_lookup _ Hk).
  destruct (decide (k = "id")) as [->|Hid].
  - by rewrite Hempty.
  - apply elem_of_cons in Hk as [?|Hk]; [done|].
    rewrite decide_True, Hempty by done. done.
Qed.

Lemma empty_scalar_omitted_and_restored_witness :
  let s := Storyline
    (list_to_map [("id", "s1"); ("random_frequency", "1000");
       ("league_year_min", ""); ("league_year_max", "");
       ("only_in_season", "1"); ("only_in_offseason", "");
       ("only_in_spring", ""); ("is_minor_league", "");
       ("storyline_happens_only_once", ""); ("min_usage_interval_days", "");
       ("trigger_events", "")]) (Items []) (Items []) in
  ∃ e, storyline_element s = Ok e ∧ ET.attrib e !! "league_year_min" = None.
Proof.
  intros s. eexists. split; [vm_compute; reflexivity|].
  refine (proj1 (empty_scalar_omitted_and_restored s _ _) "league_year_min" _ _);
    [vm_compute; reflexivity|..].
  - unfold attributes. rewrite !elem_of_cons. auto.
  - vm_compute; reflexivity.
Defined.

End scalar_attributes.

(** ** Participants *)

Section participants.
Import GUI.

(** An entry is written exactly when its value is not the empty string. *)
Lemma nonempty_items_lookup (d : gmap string string) (k : string) :
  nonempty_items d !! k
  = d !! k ≫= λ v, if decide (v = "") then None else Some v.
Proof.
  unfold nonempty_items. rewrite map_lookup_filter.
  destruct (d !! k) as [v|]; [|done]. cbn [mbind option_bind].
  destruct (decide (v = "")) as [->|Hv].
  - by rewrite option_guard_False by (cbn; auto).
  - by rewrite option_guard_True by done.
Qed.

Lemma set_nonempty_items_empty (d : gmap string string) :
  set_nonempty_items d ∅ = nonempty_items d.
Proof. unfold set_nonempty_items. by rewrite (right_id_L ∅ (∪)). Qed.

Lemma data_object_element_attrib (d : gmap string string) :
  ET.attrib (data_object_element d) = nonempty_items d.
Proof. apply set_nonempty_items_empty. Qed.


(** C5, as the code has it: a participant read from a DATA_OBJECT whose
    [type] is missing or the empty string is written without a [type]
    attribute, and [main_actor] is written with any non-empty value, not
    only when the flag is set. *)
Lemma participant_type_and_flag_not_special :
  let written (d : gmap string string) : result (option (list ET.element)) :=
    s ← parse_storyline_element
      (ET.Element "STORYLINE" {[ "id" := "s1" ]} None
         [ET.Element "REQUIRED_DATA" ∅ None [ET.Element "DATA_OBJECT" d None []]]);
    e ← storyline_element s;
    Ok (ET.children <$> ET.find "REQUIRED_DATA" e) in
  written {[ "type" := "" ]} = Ok (Some [ET.Element "DATA_OBJECT" ∅ None []]) ∧
  written ∅ = Ok (Some [ET.Element "DATA_OBJECT" ∅ None []]) ∧
  let d : gmap string string := {[ "type" := "PLAYER"; "main_actor" := "0" ]} in
  ¬ is_main_actor d ∧
  written d = Ok (Some [ET.Element "DATA_OBJECT" d None []]).
Proof.
  intros written. split; [|split; [|split]].
  - vm_compute. reflexivity.
  - vm_compute. reflexivity.
  - vm_compute. discriminate.
  - vm_compute. reflexivity.
Qed.

Lemma data_objects_written (ds : list (gmap string string)) :
  Forall2 (λ d data_obj,
             ET.tag data_obj = "DATA_OBJECT" ∧
             ∀ k, ET.attrib data_obj !! k
                  = d !! k ≫= λ v, if decide (v = "") then None else Some v)
          ds (data_object_element <$> ds).
Proof.
  induction ds as [|d ds IH]; [constructor|].
  rewrite fmap_cons. constructor; [|exact IH]. split; [done|]. intros k.
  rewrite data_object_element_attrib. apply nonempty_items_lookup.
Qed.

(** C5 amended: when a record with a non-empty participant list is
    written, the REQUIRED_DATA group has one DATA_OBJECT per participant,
    in order, and each carries exactly the entries of its participant
    whose value is not the empty string; [type] and [main_actor] follow
    the same rule as every other entry. *)
Theorem participant_entries_written_iff_nonempty
    (s : storyline) (e : ET.element) (ds : list (gmap string string)) :
  required_data s = Items ds → ds ≠ [] →
  storyline_element s = Ok e →
  ∃ group,
    ET.find "REQUIRED_DATA" e = Some group ∧
    Forall2 (λ d data_obj,
               ET.tag data_obj = "DATA_OBJECT" ∧
               ∀ k, ET.attrib data_obj !! k
                    = d !! k ≫= λ v, if decide (v = "") then None else Some v)
            ds (ET.children group).
Proof.
  intros Hds Hne
    (id & a & rd & ar & _ & _ & Hrd & _ & ->)%storyline_element_inv.
  unfold required_data_children in Hrd. rewrite Hds in Hrd.
  destruct ds as [|d ds]; [done|]. injection Hrd as <-.
  eexists. split.
  { unfold ET.find, ET.findall. cbn [ET.children app].
    rewrite filter_cons_True by done. done. }
  exact (data_objects_written (d :: ds)).
Qed.

Lemma participant_entries_written_iff_nonempty_witness :
  let d : gmap string string := {[ "type" := "PLAYER"; "age_min" := "" ]} in
  let s := Storyline (list_to_map defaults) (Items [d]) (Items []) in
  ∃ e group, storyline_element s = Ok e ∧
             ET.find "REQUIRED_DATA" e = Some group ∧
             length (ET.children group) = 1.
Proof.
  intros d s. eexists.
  assert (storyline_element s = Ok _) as He by (vm_compute; reflexivity).
  destruct (participant_entries_written_iff_nonempty s _ [d] eq_refl
              ltac:(discriminate) He) as (group & Hfind & Hall).
  exists group. split; [exact He|]. split; [exact Hfind|].
  by rewrite <-(Forall2_length _ _ _ Hall).
Defined.

End participants.

(** ** Loading a document *)

Section loading.
Import GUI.

Lemma for_each_attrs_required_data (elems : list ET.element) : ∀ s s',
  for_each append_required_data s elems = Ok s' → attrs s' = attrs s.
Proof.
  induction elems as [|e elems IH]; intros s s'; cbn [for_each].
  { by intros [= <-]. }
  intros (s1 & H1 & H)%bind_Ok. rewrite (IH _ _ H).
  unfold append_required_data in H1.
  destruct (required_data s); [|done]. by injection H1 as <-.
Qed.

Lemma for_each_attrs_article (elems : list ET.element) : ∀ s s',
  for_each append_article s elems = Ok s' → attrs s' = attrs s.
Proof.
  induction elems as [|e elems IH]; intros s s'; cbn [for_each].
  { by intros [= <-]. }
  intros (s1 & H1 & H)%bind_Ok. rewrite (IH _ _ H).
  unfold append_article in H1.
  destruct (articles s); [|done]. by injection H1 as <-.
Qed.

(** Every parsed record has the key [id]. *)
Lemma parse_storyline_element_id (e : ET.element) (s : storyline) :
  parse_storyline_element e = Ok s →
  attrs s !! "id" = Some (storyline_id s).
Proof.
  unfold parse_storyline_element.
  destruct (default_loop defaults
    (map_fold (λ k v s, setitem s k v) (Storyline ∅ (Items []) (Items []))
              (ET.attrib e))) as (D1 & _ & _).
  { unfold defaults. repeat (constructor; [done|]). constructor. }
  set (s2 := foldl set_default _ defaults) in *. clearbody s2.
  intros (s3 & H3 & H)%bind_Ok.
  assert (attrs s = attrs s2) as Hs.
  { transitivity (attrs s3).
    - destruct (ET.find "ARTICLES" e); [|by injection H as <-].
      by eapply for_each_attrs_article.
    - destruct (ET.find "REQUIRED_DATA" e); [|by injection H3 as <-].
      by eapply for_each_attrs_required_data. }
  assert (is_Some (attrs s !! "id")) as [v Hv].
  { rewrite Hs, D1, lookup_union.
    rewrite (defaults_lookup "id") by apply list_elem_of_here.
    destruct (_ !! "id"); by eexists. }
  unfold storyline_id. by rewrite Hv.
Qed.

(** The loop over the STORYLINE elements. *)
Lemma parse_storylines_ok (elems : list ET.element) : ∀ acc l,
  parse_storylines acc elems = (l, Ok ()) ↔
  ∃ parsed, l = acc ++ parsed ∧
            Forall2 (λ e s, parse_storyline_element e = Ok s) elems parsed.
Proof.
  induction elems as [|e elems IH]; intros acc l; cbn [parse_storylines].
  { split.
    - intros [= <-]. exists []. by rewrite (right_id_L [] (++)).
    - intros (parsed & -> & ->%Forall2_nil_inv_l).
      by rewrite (right_id_L [] (++)). }
  destruct (parse_storyline_element e) as [s|x] eqn:He.
  - rewrite IH. split.
    + intros (parsed & -> & Hall). exists (s :: parsed).
      split; [by rewrite <-(assoc_L (++))|]. by constructor.
    + intros (parsed & -> & Hall).
      apply Forall2_cons_inv_l in Hall as (s' & parsed' & Hs & Hall & ->).
      rewrite He in Hs. injection Hs as <-. exists parsed'.
      split; [by rewrite <-(assoc_L (++))|done].
  - split; [done|].
    intros (parsed & -> & Hall).
    apply Forall2_cons_inv_l in Hall as (s' & parsed' & Hs & _).
    by rewrite He in Hs.
Qed.

Lemma insert_sorted_keyed {A : Type} (key : A → string) (x : A) (l : list A) :
  insert_sorted fst (key x, x) ((λ y, (key y, y)) <$> l)
  = (λ y, (key y, y)) <$> insert_sorted key x l.
Proof.
  induction l as [|y l IH]; [done|]. rewrite fmap_cons.
  cbn [insert_sorted fst].
  destruct (decide (String.le (key x) (key y))); [by rewrite !fmap_cons|].
  rewrite IH. by rewrite fmap_cons.
Qed.

Lemma py_sorted_keyed {A : Type} (key : A → string) (l : list A) :
  (py_sorted fst ((λ y, (key y, y)) <$> l)).*2 = py_sorted key l.
Proof.
  assert (py_sorted fst ((λ y, (key y, y)) <$> l)
          = (λ y, (key y, y)) <$> py_sorted key l) as ->.
  { induction l as [|x l IH]; [done|]. rewrite fmap_cons.
    cbn [py_sorted]. rewrite IH. apply insert_sorted_keyed. }
  rewrite <-list_fmap_compose. apply list_fmap_id.
Qed.

(** Sorting records that all have an [id] orders them by it. *)
Lemma sort_by_id_ok (l : list storyline) :
  Forall (λ s, attrs s !! "id" = Some (storyline_id s)) l →
  sort_by_id l = Ok (py_sorted storyline_id l).
Proof.
  intros Hl. unfold sort_by_id.
  assert (∀ acc, for_each
            (λ acc s, k ← getitem s "id"; Ok (acc ++ [(k, s)])) acc l
          = Ok (acc ++ ((λ s, (storyline_id s, s)) <$> l))) as ->.
  { induction Hl as [|s l Hs Hl IH]; intros acc; cbn [for_each].
    - by rewrite fmap_nil, app_nil_r.
    - assert (getitem s "id" = Ok (storyline_id s)) as Hg
        by (unfold getitem; by rewrite Hs).
      rewrite Hg. cbn [mbind result_bind].
      rewrite IH, fmap_cons. by rewrite <-(assoc_L (++)). }
  cbn [mbind result_bind app]. by rewrite py_sorted_keyed.
Qed.

End loading.

(** ** The order of a loaded collection *)

Section load_order.
Import GUI.

(** What a successful load leaves in [self.storylines]: the records of
    the STORYLINE elements, stably sorted by [id]. *)
Lemma parse_xml_file_loaded (previous l : list storyline) (root : ET.element) :
  parse_xml_file previous (Some root) = (l, Ok ()) →
  ∃ elems parsed,
    storyline_elems root = Some elems ∧
    Forall2 (λ e s, parse_storyline_element e = Ok s) elems parsed ∧
    l = py_sorted storyline_id parsed.
Proof.
  unfold parse_xml_file, storyline_elems.
  destruct (ET.find "STORYLINES" root) as [container|]; [|done].
  destruct (parse_storylines [] (ET.findall "STORYLINE" container))
    as [parsed [[]|x]] eqn:Hp; [|done].
  apply parse_storylines_ok in Hp as (parsed' & -> & Hall).
  cbn [app] in *. rewrite sort_by_id_ok.
  - intros [= <- _]. eauto.
  - apply Forall_forall. intros s Hs.
    apply list_elem_of_lookup in Hs as [i Hi].
    destruct (Forall2_lookup_r _ _ _ _ _ Hall Hi) as (e & _ & He).
    by eapply parse_storyline_element_id.
Qed.

Lemma update_storyline_list_ok (l : list storyline) :
  Forall (λ s, ∃ arts, articles s = Items arts) l →
  update_storyline_list l = Ok ().
Proof.
  intros Hl. unfold update_storyline_list.
  assert (existsb title_raises l = false) as ->; [|done].
  induction Hl as [|s l [arts Hs] _ IH]; [done|].
  cbn [existsb]. rewrite IH. unfold title_raises. by rewrite Hs.
Qed.

(** A document with the container and plain STORYLINE attributes loads. *)
Lemma parse_xml_file_well_formed (previous : list storyline) (root : ET.element) :
  well_formed root → ∃ l, parse_xml_file previous (Some root) = (l, Ok ()).
Proof.
  intros (elems & Helems & Hplain). unfold storyline_elems in Helems.
  unfold parse_xml_file.
  destruct (ET.find "STORYLINES" root) as [container|]; [|done].
  injection Helems as <-.
  set (record e := Storyline (ET.attrib e ∪ list_to_map defaults)
                    (Items (ET.attrib <$> data_objects e))
                    (Items (parse_article <$> article_elems e))).
  assert (Forall2 (λ e s, parse_storyline_element e = Ok s)
            (ET.findall "STORYLINE" container)
            (record <$> ET.findall "STORYLINE" container)) as Hall.
  { apply Forall2_fmap_r, Forall_Forall2_diag.
    eapply Forall_impl; [exact Hplain|]. intros e He.
    by apply parse_storyline_element_plain. }
  destruct (parse_storylines [] (ET.findall "STORYLINE" container))
    as [parsed r] eqn:Hp.
  assert (parse_storylines [] (ET.findall "STORYLINE" container)
          = (record <$> ET.findall "STORYLINE" container, Ok ())) as Hp'.
  { apply parse_storylines_ok. eexists. split; [reflexivity|exact Hall]. }
  rewrite Hp' in Hp. injection Hp as <- <-.
  rewrite sort_by_id_ok.
  - eexists. f_equal. apply update_storyline_list_ok.
    rewrite py_sorted_perm. apply Forall_fmap, Forall_forall.
    intros e _. by eexists.
  - apply Forall_fmap, Forall_forall. intros e He.
    apply (parse_storyline_element_id e).
    apply parse_storyline_element_plain.
    rewrite Forall_forall in Hplain. by apply Hplain.
Qed.



End load_order.

(** ** Writing a collection and loading it again *)

Section roundtrip.
Import GUI.


Lemma find_text_child_other (name name' value : string) (rest : list ET.element) :
  name' ≠ name →
  filter (λ c, ET.tag c = name) (text_child name' value ++ rest)
  = filter (λ c, ET.tag c = name) rest.
Proof.
  intros Hn. unfold text_child. destruct (decide (value = "")); [done|].
  cbn [app]. by rewrite filter_cons_False by done.
Qed.





End roundtrip.

Section roundtrip_record.
Import GUI.




End roundtrip_record.

Section roundtrip_collection.
Import GUI.








End roundtrip_collection.

(** ** Further properties of parsing *)

Section parsing_more.
Import GUI.

Lemma defaults_keys : defaults.*1 = "id" :: attributes.
Proof. reflexivity. Qed.

Lemma defaults_lookup_None (k : string) :
  k ∉ "id" :: attributes →
  (list_to_map defaults : gmap string string) !! k = None.
Proof. intros Hk. apply not_elem_of_list_to_map_1. by rewrite defaults_keys. Qed.

(** The string keys of a parsed record, whether or not the element uses
    the names of the list keys. *)
Lemma parse_storyline_element_attrs (e : ET.element) (s : storyline) :
  parse_storyline_element e = Ok s →
  attrs s = delete "required_data" (delete "articles" (ET.attrib e))
            ∪ list_to_map defaults.
Proof.
  unfold parse_storyline_element.
  destruct (attribute_loop (ET.attrib e)) as (H1 & _ & _).
  destruct (default_loop defaults
    (map_fold (λ k v s, setitem s k v) (Storyline ∅ (Items []) (Items []))
              (ET.attrib e))) as (D1 & _ & _).
  { unfold defaults. repeat (constructor; [done|]). constructor. }
  rewrite H1 in D1.
  set (s2 := foldl set_default _ defaults) in *. clearbody s2.
  intros (s3 & H3 & H)%bind_Ok. rewrite <-D1.
  transitivity (attrs s3).
  - destruct (ET.find "ARTICLES" e); [|by injection H as <-].
    by eapply for_each_attrs_article.
  - destruct (ET.find "REQUIRED_DATA" e); [|by injection H3 as <-].
    by eapply for_each_attrs_required_data.
Qed.

(** X1: in a parsed record every XML attribute of the element, unless it
    is named like one of the two list keys, is stored under its own name
    with its value; a missing one of the eleven is the empty string, and
    no other key is present. *)
Theorem parse_storyline_element_copies_attributes
    (e : ET.element) (s : storyline) (k : string) :
  parse_storyline_element e = Ok s →
  k ≠ "required_data" → k ≠ "articles" →
  attrs s !! k =
    match ET.attrib e !! k with
    | Some v => Some v
    | None => if decide (k ∈ "id" :: attributes) then Some "" else None
    end.
Proof.
  intros Hs Hrd Hart. rewrite (parse_storyline_element_attrs _ _ Hs).
  rewrite lookup_union, !lookup_delete_ne by done.
  destruct (ET.attrib e !! k) as [v|].
  { by destruct (_ !! k). }
  destruct (decide (k ∈ "id" :: attributes)) as [Hk|Hk].
  - by rewrite (defaults_lookup _ Hk).
  - by rewrite (defaults_lookup_None _ Hk).
Qed.

Lemma parse_storyline_element_copies_attributes_witness :
  let e := ET.Element "STORYLINE" {[ "id" := "s1" ]} None [] in
  ∃ s, parse_storyline_element e = Ok s ∧ attrs s !! "id" = Some "s1".
Proof.
  intros e. eexists.
  assert (parse_storyline_element e = Ok _) as Hs
    by (apply parse_storyline_element_plain; split; reflexivity).
  split; [exact Hs|].
  by rewrite (parse_storyline_element_copies_attributes e _ "id" Hs).
Defined.

Lemma append_required_data_str (elems : list ET.element) (s : storyline)
    (t : string) :
  required_data s = Str t → elems ≠ [] →
  for_each append_required_data s elems = Raise AttributeError.
Proof.
  intros Hs Hne. destruct elems as [|e elems]; [done|].
  cbn [for_each].
  assert (append_required_data s e = Raise AttributeError) as ->
    by (unfold append_required_data; by rewrite Hs).
  done.
Qed.

Lemma append_article_str (elems : list ET.element) (s : storyline) (t : string) :
  articles s = Str t → elems ≠ [] →
  for_each append_article s elems = Raise AttributeError.
Proof.
  intros Hs Hne. destruct elems as [|e elems]; [done|].
  cbn [for_each].
  assert (append_article s e = Raise AttributeError) as ->
    by (unfold append_article; by rewrite Hs).
  done.
Qed.

Lemma for_each_articles_required_data (elems : list ET.element) : ∀ s s',
  for_each append_required_data s elems = Ok s' → articles s' = articles s.
Proof.
  induction elems as [|e elems IH]; intros s s'; cbn [for_each].
  { by intros [= <-]. }
  intros (s1 & H1 & H)%bind_Ok. rewrite (IH _ _ H).
  unfold append_required_data in H1.
  destruct (required_data s); [|done]. by injection H1 as <-.
Qed.

(** X2: parsing a STORYLINE element raises exactly when an attribute
    named [required_data] meets a DATA_OBJECT to append, or an attribute
    named [articles] an ARTICLE; the exception is the [AttributeError] of
    [append] on a [str].  In every other case a record is returned. *)
Theorem parse_storyline_element_raises_iff (e : ET.element) :
  let clash :=
    (is_Some (ET.attrib e !! "required_data") ∧ data_objects e ≠ []) ∨
    (is_Some (ET.attrib e !! "articles") ∧ article_elems e ≠ []) in
  (clash ↔ parse_storyline_element e = Raise AttributeError) ∧
  (¬ clash ↔ ∃ s, parse_storyline_element e = Ok s).
Proof.
  intros clash.
  assert (clash → parse_storyline_element e = Raise AttributeError) as Hbad.
  { unfold clash, parse_storyline_element, data_objects, article_elems.
    destruct (attribute_loop (ET.attrib e)) as (_ & H2 & H3).
    destruct (default_loop defaults
      (map_fold (λ k v s, setitem s k v) (Storyline ∅ (Items []) (Items []))
                (ET.attrib e))) as (_ & D2 & D3).
    { unfold defaults. repeat (constructor; [done|]). constructor. }
    rewrite H2 in D2. rewrite H3 in D3.
    set (s2 := foldl set_default _ defaults) in *. clearbody s2.
    destruct (decide (is_Some (ET.attrib e !! "required_data")
                      ∧ from_option (ET.findall "DATA_OBJECT") []
                          (ET.find "REQUIRED_DATA" e) ≠ [])) as [[[t Ht] Hne]|Hno].
    - intros _. rewrite Ht in D2. cbn [from_option] in D2.
      destruct (ET.find "REQUIRED_DATA" e) as [rd|]; [|done].
      cbn [from_option] in Hne.
      by rewrite (append_required_data_str _ _ _ D2 Hne).
    - intros [?|[[t Ht] Hne]]; [done|].
      rewrite Ht in D3. cbn [from_option] in D3.
      destruct (ET.find "ARTICLES" e) as [ar|]; [|done].
      cbn [from_option] in Hne.
      destruct (match ET.find "REQUIRED_DATA" e with
                | Some rd => for_each append_required_data s2
                               (ET.findall "DATA_OBJECT" rd)
                | None => Ok s2
                end) as [s3|x] eqn:H3'.
      + cbn [mbind result_bind].
        assert (articles s3 = Str t) as Hs3.
        { destruct (ET.find "REQUIRED_DATA" e).
          - by rewrite (for_each_articles_required_data _ _ _ H3').
          - by injection H3' as <-. }
        by rewrite (append_article_str _ _ _ Hs3 Hne).
      + cbn [mbind result_bind]. f_equal.
        destruct (ET.find "REQUIRED_DATA" e) as [rd|]; [|done].
        destruct (required_data s2) as [l|t'] eqn:Hr.
        * by rewrite (append_required_data_loop _ _ _ Hr) in H3'.
        * destruct (ET.findall "DATA_OBJECT" rd) as [|d ds] eqn:Hds; [done|].
          rewrite (append_required_data_str _ _ _ Hr) in H3' by done.
          by injection H3' as <-. }
  assert (¬ clash → ∃ s, parse_storyline_element e = Ok s) as Hgood.
  { unfold clash, parse_storyline_element, data_objects, article_elems.
    destruct (attribute_loop (ET.attrib e)) as (_ & H2 & H3).
    destruct (default_loop defaults
      (map_fold (λ k v s, setitem s k v) (Storyline ∅ (Items []) (Items []))
                (ET.attrib e))) as (_ & D2 & D3).
    { unfold defaults. repeat (constructor; [done|]). constructor. }
    rewrite H2 in D2. rewrite H3 in D3.
    set (s2 := foldl set_default _ defaults) in *. clearbody s2.
    intros Hno.
    assert (∃ s3, match ET.find "REQUIRED_DATA" e with
                  | Some rd => for_each append_required_data s2
                                 (ET.findall "DATA_OBJECT" rd)
                  | None => Ok s2
                  end = Ok s3 ∧ articles s3 = articles s2) as (s3 & -> & Hs3).
    { destruct (ET.find "REQUIRED_DATA" e) as [rd|]; [|by eexists].
      cbn [from_option] in Hno.
      destruct (ET.attrib e !! "required_data") as [t|] eqn:Ht;
        cbn [from_option] in D2.
      - destruct (ET.findall "DATA_OBJECT" rd) as [|d ds] eqn:Hds.
        + by eexists.
        + destruct Hno. left. split; [by eexists|done].
      - rewrite (append_required_data_loop _ _ _ D2). by eexists. }
    cbn [mbind result_bind].
    destruct (ET.find "ARTICLES" e) as [ar|]; [|by eexists].
    cbn [from_option] in Hno.
    destruct (ET.attrib e !! "articles") as [t|] eqn:Ht; cbn [from_option] in D3.
    - destruct (ET.findall "ARTICLE" ar) as [|a arts] eqn:Harts.
      + by eexists.
      + destruct Hno. right. split; [by eexists|done].
    - rewrite (append_article_loop _ s3 []); [by eexists|]. by rewrite Hs3. }
  split; split.
  - exact Hbad.
  - intros Hr. destruct (decide clash) as [|Hn]; [done|].
    destruct (Hgood Hn) as [s Hs]. by rewrite Hs in Hr.
  - exact Hgood.
  - intros [s Hs] Hc. by rewrite (Hbad Hc) in Hs.
Qed.

Lemma parse_storyline_element_raises_iff_witness :
  parse_storyline_element
    (ET.Element "STORYLINE" {[ "required_data" := "x" ]} None
       [ET.Element "REQUIRED_DATA" ∅ None [ET.Element "DATA_OBJECT" ∅ None []]])
  = Raise AttributeError.
Proof.
  apply (proj1 (parse_storyline_element_raises_iff _)). left.
  split; [by eexists|]. discriminate.
Defined.

End parsing_more.

(** ** Further properties of loading and writing *)

Section loading_more.
Import GUI.

Lemma parse_storylines_raise (before : list ET.element) :
  ∀ acc parsed e after x,
    Forall2 (λ e s, parse_storyline_element e = Ok s) before parsed →
    parse_storyline_element e = Raise x →
    parse_storylines acc (before ++ e :: after) = (acc ++ parsed, Raise x).
Proof.
  induction before as [|b before IH]; intros acc parsed e after x Hall He.
  - apply Forall2_nil_inv_l in Hall as ->. cbn [app parse_storylines].
    by rewrite He, app_nil_r.
  - apply Forall2_cons_inv_l in Hall as (s & parsed' & Hs & Hall & ->).
    cbn [app parse_storylines]. rewrite Hs.
    rewrite (IH _ _ _ _ _ Hall He). by rewrite <-(assoc_L (++)).
Qed.

(** X3: when a STORYLINE element cannot be parsed, the load stops there:
    the exception is raised, and [self.storylines] holds the records of
    the elements before it, in document order, in place of what was
    loaded before. *)
Theorem parse_xml_file_stops_at_first_failure
    (previous parsed : list storyline) (root container e : ET.element)
    (before after : list ET.element) (x : exn) :
  ET.find "STORYLINES" root = Some container →
  ET.findall "STORYLINE" container = before ++ e :: after →
  Forall2 (λ e s, parse_storyline_element e = Ok s) before parsed →
  parse_storyline_element e = Raise x →
  parse_xml_file previous (Some root) = (parsed, Raise x).
Proof.
  intros Hc Hel Hall He. unfold parse_xml_file. rewrite Hc, Hel.
  by rewrite (parse_storylines_raise _ [] _ _ _ _ Hall He).
Qed.

Lemma parse_xml_file_stops_at_first_failure_witness :
  let good := ET.Element "STORYLINE" {[ "id" := "s1" ]} None [] in
  let bad := ET.Element "STORYLINE" {[ "articles" := "x" ]} None
               [ET.Element "ARTICLES" ∅ None [ET.Element "ARTICLE" ∅ None []]] in
  let container := ET.Element "STORYLINES" ∅ None [good; bad; good] in
  let root := ET.Element "STORYLINE_DATABASE" ∅ None [container] in
  ∃ s, parse_xml_file [] (Some root) = ([s], Raise AttributeError).
Proof.
  intros good bad container root. eexists.
  apply (parse_xml_file_stops_at_first_failure [] _ root container bad
           [good] [good]); [reflexivity|reflexivity| |].
  - constructor; [|constructor].
    apply parse_storyline_element_plain. split; reflexivity.
  - vm_compute. reflexivity.
Defined.

Lemma insert_sorted_stable {A : Type} (key : A → string) (k : string)
    (x : A) (l : list A) :
  filter (λ y, key y = k) (insert_sorted key x l)
  = filter (λ y, key y = k) (x :: l).
Proof.
  induction l as [|y l IH]; [done|]. cbn [insert_sorted].
  destruct (decide (String.le (key x) (key y))) as [|Hxy]; [done|].
  rewrite (filter_cons _ y), IH, !(filter_cons _ x), (filter_cons _ y).
  destruct (decide (key y = k)) as [Hy|]; [|done].
  destruct (decide (key x = k)) as [Hx|]; [|done].
  destruct Hxy. rewrite Hx, Hy. done.
Qed.

Lemma py_sorted_stable {A : Type} (key : A → string) (k : string) (l : list A) :
  filter (λ y, key y = k) (py_sorted key l) = filter (λ y, key y = k) l.
Proof.
  induction l as [|x l IH]; [done|]. cbn [py_sorted].
  by rewrite insert_sorted_stable, !filter_cons, IH.
Qed.

(** X4: the sort after a load is stable: the records that share an [id]
    come out in the order of their elements in the document. *)
Theorem parse_xml_file_keeps_order_of_equal_ids
    (previous l : list storyline) (root : ET.element) :
  parse_xml_file previous (Some root) = (l, Ok ()) →
  ∃ elems parsed,
    storyline_elems root = Some elems ∧
    Forall2 (λ e s, parse_storyline_element e = Ok s) elems parsed ∧
    ∀ id, filter (λ s, storyline_id s = id) l
          = filter (λ s, storyline_id s = id) parsed.
Proof.
  intros (elems & parsed & He & Hall & ->)%parse_xml_file_loaded.
  exists elems, parsed. split; [done|]. split; [done|].
  intros id. apply py_sorted_stable.
Qed.

Lemma parse_xml_file_keeps_order_of_equal_ids_witness :
  let story v := ET.Element "STORYLINE" {[ "id" := "s1"; "trigger_events" := v ]}
                   None [] in
  let root := ET.Element "STORYLINE_DATABASE" ∅ None
                [ET.Element "STORYLINES" ∅ None [story "first"; story "second"]] in
  ∃ l parsed,
    parse_xml_file [] (Some root) = (l, Ok ()) ∧
    Forall2 (λ e s, parse_storyline_element e = Ok s)
            [story "first"; story "second"] parsed ∧
    filter (λ s, storyline_id s = "s1") l
    = filter (λ s, storyline_id s = "s1") parsed.
Proof.
  intros story root.
  destruct (parse_xml_file_well_formed [] root) as [l Hl].
  { eexists. split; [reflexivity|].
    repeat (constructor; [split; reflexivity|]). constructor. }
  destruct (parse_xml_file_keeps_order_of_equal_ids [] l root Hl)
    as (elems & parsed & He & Hall & Hstable).
  injection He as <-.
  exists l, parsed. split; [exact Hl|]. split; [exact Hall|]. apply Hstable.
Defined.

End loading_more.

(** ** What can be written, and what a written document loads as *)

Section written.
Import GUI.

Lemma set_if_nonempty_loop_keys (s : storyline) (al : list string) : ∀ a a',
  for_each (set_if_nonempty s) a al = Ok a' →
  ∀ k, k ∈ al → is_Some (attrs s !! k).
Proof.
  induction al as [|x al IH]; intros a a'; cbn [for_each].
  { intros _ k Hk. by apply elem_of_nil in Hk. }
  intros (a1 & H1 & H)%bind_Ok k [->|Hk]%elem_of_cons.
  - unfold set_if_nonempty, getitem in H1.
    destruct (attrs s !! x); [by eexists|done].
  - by eapply IH.
Qed.

Lemma storyline_element_writable (s : storyline) :
  (∃ e, storyline_element s = Ok e) ↔ writable s.
Proof.
  split.
  - intros [e (id & a & rd & arts & Hid & Ha & Hrd & Harts & _)%storyline_element_inv].
    split; [|split].
    + intros k [->|Hk]%elem_of_cons; [by eexists|].
      by eapply set_if_nonempty_loop_keys.
    + unfold required_data_children in Hrd.
      destruct (required_data s) as [l|t]; [done|].
      cbn [list_or_empty]. by destruct (decide (t = "")).
    + unfold articles_children in Harts.
      destruct (articles s) as [l|t]; [done|].
      cbn [list_or_empty]. by destruct (decide (t = "")).
  - intros (Hkeys & Hrd & Harts).
    destruct (Hkeys "id") as [id Hid]; [apply list_elem_of_here|].
    destruct (set_if_nonempty_loop_ok s attributes {[ "id" := id ]}) as [a Ha].
    { intros k Hk. apply Hkeys. by apply list_elem_of_further. }
    unfold storyline_element, getitem. rewrite Hid. cbn [mbind result_bind].
    rewrite Ha. cbn [mbind result_bind].
    unfold required_data_children, articles_children.
    destruct (required_data s) as [[|d ds]|t], (articles s) as [[|a0 arts]|t'];
      cbn [list_or_empty] in Hrd, Harts; subst;
      rewrite ?decide_True by done; cbn [mbind result_bind]; by eexists.
Qed.

Lemma storyline_elements_writable (l : list storyline) :
  (∃ es, storyline_elements l = Ok es) ↔ Forall writable l.
Proof.
  induction l as [|s l IH]; cbn [storyline_elements].
  { split; [constructor|by eexists]. }
  rewrite Forall_cons, <-IH, <-storyline_element_writable. split.
  - intros [es (e & He & (es' & Hes & _)%bind_Ok)%bind_Ok]. eauto.
  - intros [[e ->] [es ->]]. by eexists.
Qed.

(** X5: [create_xml_file] returns a document exactly when every record
    of the collection has the eleven scalar keys and holds, under each of
    its two list keys, a list or the empty string. *)
Theorem create_xml_file_succeeds_iff (l : list storyline) (now : string) :
  (∃ out, create_xml_file l now = Ok out) ↔ Forall writable l.
Proof.
  rewrite <-storyline_elements_writable. unfold create_xml_file. split.
  - intros [out (es & Hes & _)%bind_Ok]. eauto.
  - intros [es ->]. by eexists.
Qed.







Lemma canonical_writable (s : storyline) : canonical_record s → writable s.
Proof.
  intros (Hkeys & (ds & Hds & _) & (arts & Harts & _)). split; [|split].
  - intros k Hk. by apply Hkeys.
  - by rewrite Hds.
  - by rewrite Harts.
Qed.









Lemma defaults_canonical (ds : list (gmap string string)) :
  Forall no_empty_values ds →
  canonical_record (Storyline (list_to_map defaults) (Items ds) (Items [])).
Proof.
  intros Hds. split; [|split].
  - intros k. cbn [attrs]. split.
    + intros Hk. destruct (decide (k ∈ "id" :: attributes)) as [|Hn]; [done|].
      rewrite (defaults_lookup_None _ Hn) in Hk. by destruct Hk.
    + intros Hk. rewrite (defaults_lookup _ Hk). by eexists.
  - by eexists.
  - eexists. split; [done|constructor].
Qed.


End written.

(** ** Editing the articles of the open storyline *)

Section editing.
Import GUI Editor.

Lemma delete_current_article_storylines
    (self self' : session) (askyesno : bool) (r : result delete_outcome) :
  delete_current_article self askyesno = (self', r) →
  self' = self ∨
  ∃ i s l,
    storylines self !! i = Some s ∧
    storylines self'
    = <[i := Storyline (attrs s) (required_data s) (Items l)]> (storylines self).
Proof.
  unfold delete_current_article.
  destruct (current_storyline_index self) as [i|];
    [|intros [= <- <-]; by left].
  destruct (decide (0 ≤ current_article_index self)%Z) as [H0|];
    [|intros [= <- <-]; by left].
  destruct (storylines self !! i) as [s|] eqn:Hs; [|intros [= <- <-]; by left].
  destruct (decide (1 < _)) as [Hlen|]; [|intros [= <- <-]; by left].
  destruct askyesno; [|intros [= <- <-]; by left].
  destruct (articles s) as [l|t]; [|intros [= <- <-]; by left].
  destruct (decide _) as [Hidx|]; intros [= <- <-]; [|by left].
  right. by eexists i, s, _.
Qed.

(** X9: [delete_current_article] changes [self] only when it reports the
    deletion, which takes the confirmation; then the open storyline has
    lost the current article and nothing else, at least one article is
    left, and the current article index points at one of them. *)
Theorem delete_current_article_removes_current
    (self self' : session) (askyesno : bool) (r : result delete_outcome) :
  delete_current_article self askyesno = (self', r) →
  (r ≠ Ok ArticleDeleted → self' = self) ∧
  (r = Ok ArticleDeleted →
   ∃ i s l,
     askyesno = true ∧
     current_storyline_index self = Some i ∧
     storylines self !! i = Some s ∧
     articles s = Items l ∧
     let idx := Z.to_nat (current_article_index self) in
     let l' := delete idx l in
     idx < length l ∧
     storylines self'
     = <[i := Storyline (attrs s) (required_data s) (Items l')]>
         (storylines self) ∧
     current_storyline_index self' = Some i ∧
     S (length l') = length l ∧ (1 ≤ length l')%nat ∧
     (0 ≤ current_article_index self' < Z.of_nat (length l'))%Z).
Proof.
  unfold delete_current_article.
  destruct (current_storyline_index self) as [i|] eqn:Hi;
    [|by intros [= <- <-]].
  destruct (decide (0 ≤ current_article_index self)%Z) as [H0|];
    [|by intros [= <- <-]].
  destruct (storylines self !! i) as [s|] eqn:Hs; [|by intros [= <- <-]].
  destruct (decide (1 < _)) as [Hlen|]; [|by intros [= <- <-]].
  destruct askyesno; [|by intros [= <- <-]].
  destruct (articles s) as [l|t] eqn:Hl; [|by intros [= <- <-]].
  destruct (decide (Z.to_nat (current_article_index self) < length l))
    as [Hidx|]; [|by intros [= <- <-]].
  intros [= <- <-]. split; [done|]. intros _.
  exists i, s, l. cbn [storylines current_storyline_index current_article_index].
  assert (S (length (delete (Z.to_nat (current_article_index self)) l))
          = length l) as Hdel.
  { rewrite length_delete by (by apply lookup_lt_is_Some_2). lia. }
  repeat split; try done; try lia.
  - destruct (decide _); lia.
  - destruct (decide _); lia.
Qed.

Lemma delete_current_article_removes_current_witness :
  let a := Article "article_1" "" "" "" ∅ in
  let b := Article "article_2" "" "" "" ∅ in
  let s l := Storyline {[ "id" := "s1" ]} (Items []) (Items l) in
  ∃ self', delete_current_article (Session [s [a; b]] (Some 0) 1) true
           = (self', Ok ArticleDeleted) ∧
           (0 ≤ current_article_index self' < 1)%Z.
Proof.
  intros a b s. eexists.
  assert (delete_current_article (Session [s [a; b]] (Some 0) 1) true
          = (_, Ok ArticleDeleted)) as H by reflexivity.
  split; [exact H|].
  destruct (proj2 (delete_current_article_removes_current _ _ _ _ H) eq_refl)
    as (i & s0 & l & _ & [= <-] & [= <-] & [= <-] & _ & _ & _ & _ & _ & Hrange).
  exact Hrange.
Defined.

Lemma delete_last (A : Type) (l : list A) (x : A) :
  delete (length l) (l ++ [x]) = l.
Proof. by rewrite delete_middle, app_nil_r. Qed.

(** X10: on a storyline that has an article, [add_new_article] followed
    by a confirmed [delete_current_article] gives back the storylines as
    they were: the article added is the current one, and it is the one
    deleted. *)
Theorem add_then_delete_restores
    (self : session) (i : nat) (s : storyline) (l : list article) :
  current_storyline_index self = Some i →
  storylines self !! i = Some s →
  articles s = Items l → l ≠ [] →
  ∃ self1 self2,
    add_new_article self = (self1, Ok ()) ∧
    current_article_index self1 = Z.of_nat (length l) ∧
    delete_current_article self1 true = (self2, Ok ArticleDeleted) ∧
    storylines self2 = storylines self ∧
    current_article_index self2 = (Z.of_nat (length l) - 1)%Z.
Proof.
  intros Hi Hs Hl Hne. unfold add_new_article. rewrite Hi, Hs, Hl.
  eexists _, _. split; [reflexivity|].
  cbn [current_article_index]. split; [rewrite length_app; cbn; lia|].
  unfold delete_current_article.
  cbn [current_storyline_index current_article_index storylines].
  assert (i < length (storylines self)) as Hlt by (by eapply lookup_lt_Some).
  rewrite list_lookup_insert_eq by done.
  cbn [articles attrs required_data].
  rewrite decide_True by (rewrite length_app; cbn; lia).
  assert (0 < length l) by (destruct l; [done|cbn; lia]).
  rewrite decide_True by (rewrite length_app; cbn; lia).
  assert (Z.to_nat (Z.of_nat (length (l ++ [Article
            (article_name (length l + 1)) "" "" "" ∅])) - 1) = length l) as ->
    by (rewrite length_app; cbn; lia).
  rewrite decide_True by (rewrite length_app; cbn; lia).
  rewrite delete_last. rewrite decide_True by (rewrite length_app; cbn; lia).
  split; [reflexivity|]. cbn [storylines current_article_index].
  split; [|done]. rewrite list_insert_insert_eq.
  apply list_insert_id. rewrite Hs. f_equal. destruct s. cbn in *. by subst.
Qed.

Lemma add_then_delete_restores_witness :
  let a := Article "article_1" "Opening day" "" "" ∅ in
  let s := Storyline {[ "id" := "s1" ]} (Items []) (Items [a]) in
  ∃ self1 self2,
    add_new_article (Session [s] (Some 0) 0) = (self1, Ok ()) ∧
    delete_current_article self1 true = (self2, Ok ArticleDeleted) ∧
    storylines self2 = [s].
Proof.
  intros a s.
  destruct (add_then_delete_restores (Session [s] (Some 0) 0) 0 s [a])
    as (self1 & self2 & H1 & _ & H2 & H3 & _); try reflexivity; [done|].
  exists self1, self2. split; [exact H1|]. split; [exact H2|exact H3].
Defined.

Lemma delete_snoc_lt (A : Type) (l : list A) (x : A) (i : nat) :
  i < length l → delete i (l ++ [x]) = delete i l ++ [x].
Proof.
  revert i. induction l as [|y l IH]; intros [|i] Hi; cbn in *; try lia.
  - done.
  - f_equal. apply IH. lia.
Qed.

(** X11: the id of a new article is made of the number of articles, so
    it is not fresh: when the last article carries the id of its position
    and an article before it is deleted, the article added next gets the
    id of that last article. *)
Theorem add_after_delete_reuses_id
    (self : session) (i idx : nat) (s : storyline) (l : list article) :
  current_storyline_index self = Some i →
  storylines self !! i = Some s →
  articles s = Items l →
  current_article_index self = Z.of_nat idx →
  idx + 1 < length l →
  article_id <$> last l = Some (article_name (length l)) →
  ∃ self1 self2 s2 l2,
    delete_current_article self true = (self1, Ok ArticleDeleted) ∧
    add_new_article self1 = (self2, Ok ()) ∧
    storylines self2 !! i = Some s2 ∧
    articles s2 = Items l2 ∧
    length l2 = length l ∧
    ¬ NoDup (article_id <$> l2).
Proof.
  intros Hi Hs Hl Hcai Hidx Hlast.
  destruct (last l) as [x|] eqn:Hx; [|done].
  apply last_Some in Hx as [l0 ->]. injection Hlast as Hxid.
  rewrite length_app in Hidx, Hxid. cbn [length] in Hidx, Hxid.
  assert (i < length (storylines self)) as Hlt by (by eapply lookup_lt_Some).
  unfold delete_current_article. rewrite Hi, Hcai, Hs, Hl.
  rewrite decide_True by lia.
  rewrite decide_True by (rewrite length_app; cbn; lia).
  rewrite Nat2Z.id.
  rewrite decide_True by (rewrite length_app; cbn; lia).
  rewrite delete_snoc_lt by lia.
  assert (S (length (delete idx l0)) = length l0) as Hdel.
  { rewrite length_delete by (apply lookup_lt_is_Some_2; lia). lia. }
  eexists _, _, _, _. split; [reflexivity|].
  unfold add_new_article.
  cbn [current_storyline_index storylines].
  rewrite list_lookup_insert_eq by done. cbn [articles attrs required_data].
  split; [reflexivity|]. cbn [storylines].
  rewrite list_lookup_insert_eq by (by rewrite length_insert).
  split; [reflexivity|]. cbn [articles]. split; [reflexivity|].
  split.
  { rewrite !length_app. cbn [length]. lia. }
  rewrite !fmap_app. cbn [fmap list_fmap article_id].
  rewrite <-(assoc_L (++)). intros [_ [_ Hnd]]%NoDup_app.
  apply NoDup_cons in Hnd as [Hnotin _]. apply Hnotin.
  rewrite Hxid. apply list_elem_of_singleton. f_equal.
  rewrite length_app. cbn [length]. lia.
Qed.

Lemma add_after_delete_reuses_id_witness :
  let article n := Article (article_name n) "" "" "" ∅ in
  let s := Storyline {[ "id" := "s1" ]} (Items [])
             (Items [article 1; article 2]) in
  ∃ self1 self2 s2 l2,
    delete_current_article (Session [s] (Some 0) 0) true
    = (self1, Ok ArticleDeleted) ∧
    add_new_article self1 = (self2, Ok ()) ∧
    storylines self2 !! 0 = Some s2 ∧
    articles s2 = Items l2 ∧
    ¬ NoDup (article_id <$> l2).
Proof.
  intros article s.
  destruct (add_after_delete_reuses_id (Session [s] (Some 0) 0) 0 0 s
              [article 1; article 2])
    as (self1 & self2 & s2 & l2 & H1 & H2 & H3 & H4 & _ & H5);
    try reflexivity; [cbn; lia|].
  exists self1, self2, s2, l2. repeat split; assumption.
Defined.

End editing.

(** ** Saving the open storyline *)

Section saving.
Import GUI Editor.
Variable strip : string → string.

Lemma collect_scalars_keys (f : storyline_fields) (k : string) :
  is_Some (collect_scalars f !! k) ↔ k ∈ "id" :: attributes.
Proof.
  rewrite <-elem_of_dom. unfold collect_scalars.
  rewrite dom_list_to_map_L, elem_of_list_to_set. reflexivity.
Qed.

Lemma save_current_article_storylines
    (self self' : session) (a : article_fields) (r : result unit) :
  save_current_article strip self a = (self', r) →
  self' = self ∨
  ∃ i s l,
    r = Ok () ∧
    current_storyline_index self = Some i ∧
    storylines self !! i = Some s ∧ articles s = Items l ∧
    self' = Session
      (<[i := Storyline (attrs s) (required_data s)
                 (Items (<[Z.to_nat (current_article_index self) :=
                            Article (article_id_var a) (subject_var a)
                              (strip (text_widget a)) (injury_var a)
                              (collect_modifiers strip a)]> l))]>
         (storylines self))
      (Some i) (current_article_index self).
Proof.
  unfold save_current_article.
  destruct (current_storyline_index self) as [i|] eqn:Hi;
    [|intros [= <- <-]; by left].
  destruct (decide (0 ≤ current_article_index self)%Z) as [H0|];
    [|intros [= <- <-]; by left].
  destruct (storylines self !! i) as [s|] eqn:Hs; [|intros [= <- <-]; by left].
  destruct (articles s) as [l|t] eqn:Hl.
  - destruct (decide _) as [Hidx|]; [|intros [= <- <-]; by left].
    intros [= <- <-]. right. by exists i, s, l.
  - destruct (decide _) as [Hidx|]; intros [= <- <-]; by left.
Qed.

(** X12: [save_storyline] stores a record that has exactly the eleven
    scalar keys, whatever the record it replaces had: an attribute of
    another name that was loaded with the storyline is gone as soon as the
    storyline is saved in the editor.  A new storyline is appended; an
    open one is replaced where it is, and no other record changes. *)
Theorem save_storyline_keeps_only_known_keys
    (self self' : session) (f : storyline_fields) (a : article_fields) :
  save_storyline strip self f a = (self', Ok ()) →
  let pos := default (length (storylines self)) (current_storyline_index self) in
  (∃ r, storylines self' !! pos = Some r ∧
        attrs r = collect_scalars f ∧
        (∀ k, is_Some (attrs r !! k) ↔ k ∈ "id" :: attributes) ∧
        required_data r = Items (required_data_list f) ∧
        ∃ arts, articles r = Items arts) ∧
  (∀ j, j ≠ pos → storylines self' !! j = storylines self !! j) ∧
  length (storylines self')
  = match current_storyline_index self with
    | Some _ => length (storylines self)
    | None => S (length (storylines self))
    end.
Proof.
  unfold save_storyline.
  destruct (current_storyline_index self) as [i|] eqn:Hi; cbn [default].
  - destruct (save_current_article strip self a) as [self1 [[]|x]] eqn:H1;
      [|done].
    apply save_current_article_storylines in H1.
    assert (length (storylines self1) = length (storylines self) ∧
            ∀ j, j ≠ i → storylines self1 !! j = storylines self !! j)
      as [Hlen Hother].
    { destruct H1 as [->|(i' & s & l & _ & Hi' & _ & _ & ->)]; [done|].
      rewrite Hi in Hi'. injection Hi' as <-. cbn [storylines].
      split; [apply length_insert|].
      intros j Hj. by apply list_lookup_insert_ne. }
    destruct (storylines self1 !! i) as [current|] eqn:Hc; [|done].
    destruct (articles current) as [l|t]; [|done].
    intros [= <-]. cbn [storylines].
    assert (i < length (storylines self1)) by (by eapply lookup_lt_Some).
    split; [|split].
    + eexists. split; [by apply list_lookup_insert_eq|].
      cbn [attrs required_data articles]. split; [done|].
      split; [apply collect_scalars_keys|]. split; [done|by eexists].
    + intros j Hj. rewrite list_lookup_insert_ne by done. by apply Hother.
    + by rewrite length_insert.
  - intros [= <-]. cbn [storylines]. split; [|split].
    + eexists. split.
      { rewrite lookup_app_r by done. by rewrite Nat.sub_diag. }
      cbn [attrs required_data articles]. split; [done|].
      split; [apply collect_scalars_keys|]. split; [done|by eexists].
    + intros j Hj. destruct (decide (j < length (storylines self))).
      * by rewrite lookup_app_l.
      * rewrite !lookup_ge_None_2; [done|lia|rewrite length_app; cbn; lia].
    + rewrite length_app. cbn. lia.
Qed.

Lemma writable_insert (l : list storyline) (i : nat) (s : storyline) :
  Forall writable l → writable s → Forall writable (<[i := s]> l).
Proof. intros Hl Hs. by apply Forall_insert. Qed.

Lemma writable_articles (s : storyline) (l : list article) :
  writable s → writable (Storyline (attrs s) (required_data s) (Items l)).
Proof. intros (? & ? & _). by split. Qed.

Lemma collect_scalars_writable (f : storyline_fields) (l : list article) :
  writable (Storyline (collect_scalars f) (Items (required_data_list f))
                      (Items l)).
Proof.
  split; [|done]. intros k Hk. cbn [attrs]. by apply collect_scalars_keys.
Qed.

(** X13: the editor keeps a collection writable.  When every record can
    be written by [create_xml_file], the same holds after
    [add_new_article], after [delete_current_article], after
    [save_current_article] and after [save_storyline], whatever the fields
    hold, whatever the answer to the confirmation and whether or not the
    operation raises; and what [save_storyline] stores can be written
    whatever the collection was. *)
Theorem editing_keeps_writable (self : session) :
  Forall writable (storylines self) →
  Forall writable (storylines (add_new_article self).1) ∧
  (∀ askyesno,
     Forall writable (storylines (delete_current_article self askyesno).1)) ∧
  (∀ a, Forall writable (storylines (save_current_article strip self a).1)) ∧
  (∀ f a, Forall writable (storylines (save_storyline strip self f a).1)).
Proof.
  intros Hw.
  assert (∀ i s, storylines self !! i = Some s → writable s) as Hlook.
  { intros i s Hs. rewrite Forall_forall in Hw. apply Hw.
    by eapply list_elem_of_lookup_2. }
  assert (∀ a, Forall writable
                 (storylines (save_current_article strip self a).1)) as Hsave.
  { intros a. destruct (save_current_article strip self a) as [self1 r] eqn:H1.
    apply save_current_article_storylines in H1
      as [->|(i & s & l & _ & _ & Hs & _ & ->)]; [done|].
    cbn [fst storylines]. apply writable_insert; [done|].
    apply writable_articles. by eapply Hlook. }
  split; [|split; [|split]].
  - unfold add_new_article.
    destruct (current_storyline_index self) as [i|]; [|done].
    destruct (storylines self !! i) as [s|] eqn:Hs; [|done].
    destruct (articles s); [|done]. cbn [fst storylines].
    apply writable_insert; [done|]. apply writable_articles. by eapply Hlook.
  - intros askyesno.
    destruct (delete_current_article self askyesno) as [self' r] eqn:Hd.
    destruct (delete_current_article_storylines _ _ _ _ Hd)
      as [->|(i & s & l & Hs & Hst)]; [done|].
    cbn [fst]. rewrite Hst. apply writable_insert; [done|].
    apply writable_articles. by eapply Hlook.
  - exact Hsave.
  - intros f a. unfold save_storyline.
    destruct (current_storyline_index self) as [i|].
    + specialize (Hsave a).
      destruct (save_current_article strip self a) as [self1 [[]|x]];
        [|done].
      cbn [fst] in Hsave.
      destruct (storylines self1 !! i) as [current|]; [|done].
      destruct (articles current); [|done]. cbn [fst storylines].
      apply writable_insert; [done|]. apply collect_scalars_writable.
    + cbn [fst storylines]. apply Forall_app. split; [done|].
      constructor; [|constructor]. apply collect_scalars_writable.
Qed.

End saving.

Lemma save_storyline_keeps_only_known_keys_witness :
  let old := GUI.Storyline {[ "id" := "s1"; "custom_flag" := "7" ]}
               (GUI.Items []) (GUI.Items [GUI.Article "a1" "" "" "" ∅]) in
  let f := Editor.StorylineFields "s1" "1000" "" "" "" "" true false false
             false false [] in
  let a := Editor.ArticleFields "a1" "Trade talk" "" "He was traded." ∅ in
  ∃ self' r,
    Editor.save_storyline id (GUI.Session [old] (Some 0) 0) f a = (self', Ok ()) ∧
    GUI.storylines self' !! 0 = Some r ∧
    ¬ is_Some (GUI.attrs r !! "custom_flag").
Proof.
  intros old f a. eexists.
  assert (Editor.save_storyline id (GUI.Session [old] (Some 0) 0) f a
          = (_, Ok ())) as Hsave by reflexivity.
  destruct (save_storyline_keeps_only_known_keys id _ _ f a Hsave)
    as ((r & Hr & _ & Hkeys & _) & _).
  exists r. split; [exact Hsave|]. split; [exact Hr|].
  rewrite Hkeys. unfold GUI.attributes.
  rewrite !elem_of_cons, elem_of_nil. intros H.
  repeat (destruct H as [H|H]; [discriminate H|]). exact H.
Defined.

Lemma editing_keeps_writable_witness :
  let s := GUI.Storyline (list_to_map GUI.defaults) (GUI.Items [])
             (GUI.Items []) in
  let self := GUI.Session [s] (Some 0) 0 in
  Forall writable (GUI.storylines self) ∧
  Forall writable (GUI.storylines (Editor.add_new_article self).1).
Proof.
  intros s self.
  assert (Forall writable (GUI.storylines self)) as Hw.
  { constructor; [|constructor]. apply canonical_writable, defaults_canonical.
    constructor. }
  split; [exact Hw|]. exact (proj1 (editing_keeps_writable id self Hw)).
Defined.

(** ** The participant dialog *)

Section dialog_properties.
Import AttributeManager Dialog.
Variable set_iteration : gset string → list string.
Variable catalog : data_object_attributes.
Variable strip : string → string.

Lemma fresh_vars_lookup (l : list string) : ∀ (m : gmap string string) k,
  foldl (λ vars attr, <[attr := ""]> vars) m l !! k
  = if decide (k ∈ l) then Some "" else m !! k.
Proof.
  induction l as [|x l IH]; intros m k; cbn [foldl].
  { rewrite decide_False; [done|apply not_elem_of_nil]. }
  rewrite IH. destruct (decide (k ∈ l)) as [Hk|Hk].
  - rewrite decide_True; [done|by apply list_elem_of_further].
  - destruct (decide (k = x)) as [->|Hne].
    + rewrite lookup_insert_eq, decide_True; [done|apply list_elem_of_here].
    + rewrite lookup_insert_ne by done. rewrite decide_False; [done|].
      rewrite elem_of_cons. by intros [?|?].
Qed.

Lemma update_attributes_vars (d : dialog) (k : string) :
  attr_vars (update_attributes set_iteration catalog d) !! k
  = if decide (k ∈ get_attributes_for_type set_iteration catalog (type_var d))
    then Some "" else None.
Proof.
  unfold update_attributes. cbn [attr_vars].
  rewrite fresh_vars_lookup, lookup_empty.
  destruct (decide (k ∈ py_sorted id _)) as [Hk|Hk];
    rewrite py_sorted_perm in Hk.
  - by rewrite decide_True.
  - by rewrite decide_False.
Qed.

(** What [load_data] leaves in the variables: [type] and [main_actor] go
    to their own variables, every other entry to the variable of its name
    when the dialog shows one. *)
Lemma load_data_vars (d : dialog) (data : gmap string string) :
  let d' := load_data d data in
  type_var d' = default (type_var d) (data !! "type") ∧
  main_actor_var d'
  = from_option (λ v, bool_decide (v = "1")) (main_actor_var d)
                (data !! "main_actor") ∧
  ∀ k, attr_vars d' !! k
       = if decide (k = "type" ∨ k = "main_actor") then attr_vars d !! k
         else match attr_vars d !! k, data !! k with
              | Some _, Some v => Some v
              | old, _ => old
              end.
Proof.
  unfold load_data.
  apply (map_fold_weak_ind (λ d' m,
    type_var d' = default (type_var d) (m !! "type") ∧
    main_actor_var d'
    = from_option (λ v, bool_decide (v = "1")) (main_actor_var d)
                  (m !! "main_actor") ∧
    ∀ k, attr_vars d' !! k
         = if decide (k = "type" ∨ k = "main_actor") then attr_vars d !! k
           else match attr_vars d !! k, m !! k with
                | Some _, Some v => Some v
                | old, _ => old
                end)).
  - rewrite !lookup_empty. cbn [default from_option]. split; [done|].
    split; [done|]. intros k. destruct (decide _); [done|].
    rewrite lookup_empty. by destruct (attr_vars d !! k).
  - intros i x m r Hi (Ht & Hm & Hv).
    destruct (decide (i = "type")) as [->|Hit].
    { cbn [type_var main_actor_var attr_vars].
      rewrite lookup_insert_eq, lookup_insert_ne by done.
      split; [done|]. split; [done|]. intros k. rewrite Hv.
      destruct (decide (k = "type" ∨ k = "main_actor")) as [|Hk]; [done|].
      rewrite lookup_insert_ne; [done|]. intros <-. apply Hk. by left. }
    destruct (decide (i = "main_actor")) as [->|Him].
    { cbn [type_var main_actor_var attr_vars].
      rewrite lookup_insert_eq, lookup_insert_ne by done.
      split; [done|]. split; [done|]. intros k. rewrite Hv.
      destruct (decide (k = "type" ∨ k = "main_actor")) as [|Hk]; [done|].
      rewrite lookup_insert_ne; [done|]. intros <-. apply Hk. by right. }
    assert (attr_vars r !! i = attr_vars d !! i) as Hri.
    { rewrite Hv, decide_False by (by intros [?|?]). rewrite Hi.
      by destruct (attr_vars d !! i). }
    destruct (decide (is_Some (attr_vars r !! i))) as [Hsome|Hnone];
      cbn [type_var main_actor_var attr_vars];
      rewrite !(lookup_insert_ne m i) by done.
    + split; [done|]. split; [done|]. intros k.
      destruct (decide (k = i)) as [->|Hki].
      * rewrite !lookup_insert_eq, decide_False by (by intros [?|?]).
        rewrite Hri in Hsome. by destruct Hsome as [v ->].
      * rewrite !lookup_insert_ne by done. apply Hv.
    + split; [done|]. split; [done|]. intros k. rewrite Hv.
      destruct (decide (k = "type" ∨ k = "main_actor")); [done|].
      destruct (decide (k = i)) as [->|Hki].
      * rewrite Hri in Hnone. apply eq_None_not_Some in Hnone.
        by rewrite Hnone.
      * by rewrite lookup_insert_ne.
Qed.

Lemma init_vars (data : gmap string string) :
  let d := init set_iteration catalog (Some data) in
  let obj_type := default "PLAYER" (data !! "type") in
  type_var d = obj_type ∧
  main_actor_var d = bool_decide (data !! "main_actor" = Some "1") ∧
  ∀ k, attr_vars d !! k
       = if decide (k ∈ get_attributes_for_type set_iteration catalog obj_type)
         then if decide (k = "type" ∨ k = "main_actor") then Some ""
              else Some (default "" (data !! k))
         else None.
Proof.
  cbv zeta. unfold init.
  change (default ∅ (Some data)) with data.
  set (d0 := Dialog (default "PLAYER" (data !! "type"))
               (bool_decide (data !! "main_actor" = Some "1")) ∅).
  pose proof (update_attributes_vars d0) as Hu. cbn [type_var d0] in Hu.
  destruct (decide (data = ∅)) as [->|Hne].
  - rewrite !lookup_empty. split; [done|]. split; [done|].
    intros k. rewrite Hu. rewrite lookup_empty in *. cbn [default].
    destruct (decide (k ∈ _)); [|done]. by destruct (decide _).
  - destruct (load_data_vars (update_attributes set_iteration catalog d0) data)
      as (Ht & Hm & Hv).
    rewrite Ht, Hm. cbn [type_var main_actor_var update_attributes d0].
    split; [by destruct (data !! "type")|]. split.
    { destruct (data !! "main_actor") as [v|]; cbn [from_option]; [|done].
      apply bool_decide_ext. split; [by intros ->|by intros [= ->]]. }
    intros k. rewrite Hv, Hu.
    destruct (decide (k ∈ _)); [|by destruct (decide _)].
    destruct (decide (k = "type" ∨ k = "main_actor")); [done|].
    by destruct (data !! k).
Qed.

(** X14: a participant opened in the dialog and confirmed without a
    change comes back with its [type] (PLAYER when it had none), with
    [main_actor] only when that was "1", and with the stripped value of
    every other entry whose name is in the catalog for that type and
    whose stripped value is not empty; every other entry is dropped. *)
Theorem ok_clicked_without_change (data : gmap string string) (k : string) :
  strip "" = "" →
  ok_clicked strip (init set_iteration catalog (Some data)) !! k
  = if decide (k = "type") then Some (default "PLAYER" (data !! "type"))
    else if decide (k = "main_actor") then
      if decide (data !! "main_actor" = Some "1") then Some "1" else None
    else if decide (k ∈ get_attributes_for_type set_iteration catalog
                          (default "PLAYER" (data !! "type"))) then
      data !! k ≫= λ v, if decide (strip v = "") then None else Some (strip v)
    else None.
Proof.
  intros Hstrip. destruct (init_vars data) as (Ht & Hm & Hv).
  unfold ok_clicked. rewrite Ht, Hm.
  set (d := init set_iteration catalog (Some data)) in *. clearbody d.
  rewrite lookup_union.
  fold (nonempty_items (strip <$> attr_vars d)).
  rewrite nonempty_items_lookup, lookup_fmap, Hv.
  set (cat := get_attributes_for_type set_iteration catalog
                (default "PLAYER" (data !! "type"))) in *.
  destruct (decide (k = "type")) as [->|Hkt].
  { assert (∀ m : gmap string string,
              (m ∪ {[ "type" := default "PLAYER" (data !! "type") ]}) !! "type"
              = match m !! "type" with
                | Some v => Some v
                | None => Some (default "PLAYER" (data !! "type"))
                end) as Hun.
    { intros m. rewrite lookup_union, lookup_singleton_eq.
      by destruct (m !! "type"). }
    rewrite Hun.
    assert ((if bool_decide (data !! "main_actor" = Some "1")
             then ({[ "main_actor" := "1" ]} : gmap string string) else ∅)
            !! "type" = None) as ->.
    { destruct (bool_decide _); [by rewrite lookup_singleton_ne|done]. }
    destruct (decide ("type" ∈ cat)).
    - rewrite decide_True by (by left). cbn [fmap option_fmap option_map
        mbind option_bind]. by rewrite Hstrip, decide_True.
    - done. }
  destruct (decide (k = "main_actor")) as [->|Hkm].
  { rewrite lookup_union, lookup_singleton_ne by done.
    assert (∀ o : option string, o ∪ None = o) as Hr by (by intros []).
    rewrite Hr.
    assert (∀ o : option string, o = None → ∀ o', o ∪ o' = o') as Hl
      by (by intros ? -> []).
    rewrite Hl.
    - case_bool_decide as Hb.
      + by rewrite lookup_singleton_eq, decide_True.
      + by rewrite lookup_empty, decide_False.
    - destruct (decide ("main_actor" ∈ cat)); [|done].
      rewrite decide_True by (by right). cbn [fmap option_fmap option_map
        mbind option_bind]. by rewrite Hstrip, decide_True. }
  assert (((if bool_decide (data !! "main_actor" = Some "1")
            then ({[ "main_actor" := "1" ]} : gmap string string) else ∅)
           ∪ {[ "type" := default "PLAYER" (data !! "type") ]}) !! k = None)
    as ->.
  { rewrite lookup_union, lookup_singleton_ne by done.
    destruct (bool_decide _); [by rewrite lookup_singleton_ne|done]. }
  assert (∀ o : option string, o ∪ None = o) as Hr by (by intros []).
  rewrite Hr.
  destruct (decide (k ∈ cat)); [|done].
  rewrite decide_False by (by intros [?|?]).
  destruct (data !! k) as [v|]; cbn [default fmap option_fmap option_map
    mbind option_bind].
  - done.
  - by rewrite Hstrip, decide_True.
Qed.

End dialog_properties.

Lemma ok_clicked_without_change_witness :
  let catalog := {| AttributeManager.by_type :=
                      Some {[ "PLAYER" := ["age_min"; "position"] ]};
                    AttributeManager.common := Some ["team_id"] |} in
  let data : gmap string string :=
    {[ "type" := "PLAYER"; "age_min" := "20"; "nickname" := "Ace";
       "main_actor" := "0" ]} in
  id "" = "" ∧
  ∀ k, k ∈ ["nickname"; "main_actor"] →
       Dialog.ok_clicked id (Dialog.init elements catalog (Some data)) !! k = None.
Proof.
  intros catalog data. split; [reflexivity|]. intros k Hk.
  rewrite (ok_clicked_without_change elements catalog id data k eq_refl).
  apply elem_of_cons in Hk as [->|Hk]; [vm_compute; reflexivity|].
  apply list_elem_of_singleton in Hk as ->. vm_compute. reflexivity.
Defined.

(** ** Renumbering a well-formed tag *)

Section tags_more.
Import Tags.
Variables uni_word uni_digit uni_space : char → bool.

Local Abbreviation is_word := (Tags.is_word uni_word).
Local Abbreviation is_digit := (Tags.is_digit uni_digit).
Local Abbreviation is_space := (Tags.is_space uni_space).
Local Abbreviation pattern := (Tags.pattern uni_word uni_digit uni_space).
Local Abbreviation match_at := (Tags.match_at uni_word uni_digit uni_space).
Local Abbreviation sub_from := (Tags.sub_from uni_word uni_digit uni_space).
Local Abbreviation update_tag_numbers :=
  (Tags.update_tag_numbers uni_word uni_digit uni_space).

(** Greedy repetition over a run [b] of the class, when the rest of the
    pattern fails after every shorter repetition. *)
Lemma greedy_below {R} (p : char → bool) (b s : list char)
    (k : list char → option R) :
  Forall (λ c, p c = true) b → stops p s →
  (∀ x b', b = x ++ b' → x ≠ [] → k (b' ++ s) = None) →
  greedy p (b ++ s) k = k (b ++ s).
Proof.
  intros Hb Hs. induction Hb as [|c b Hc Hb IH]; intros Hk.
  - cbn [app]. destruct s as [|c s0]; [done|]. cbn [greedy].
    by rewrite (Hs c s0).
  - cbn [app greedy]. rewrite Hc, IH.
    + by rewrite (Hk [c] b).
    + intros x b' -> Hx. by apply (Hk (c :: x) b').
Qed.

(** Backtracking: the repetition gives back [b] when the rest of the
    pattern matches there and nowhere later. *)
Lemma greedy_backtrack {R} (p : char → bool) (a b s : list char)
    (k : list char → option R) (r : R) :
  Forall (λ c, p c = true) a → Forall (λ c, p c = true) b → stops p s →
  (∀ x b', b = x ++ b' → x ≠ [] → k (b' ++ s) = None) →
  k (b ++ s) = Some r →
  greedy p (a ++ b ++ s) k = Some r.
Proof.
  intros Ha Hb Hs Hk Hr. induction Ha as [|c a Hc Ha IH]; cbn [app].
  - by rewrite greedy_below.
  - cbn [greedy]. by rewrite Hc, IH.
Qed.

Lemma greedy_max {R} (p : char → bool) (a s : list char)
    (k : list char → option R) (r : R) :
  Forall (λ c, p c = true) a → stops p s → k s = Some r →
  greedy p (a ++ s) k = Some r.
Proof.
  intros Ha Hs Hr. apply (greedy_backtrack p a [] s); try done.
  intros [|? ?] b' Heq Hx; done.
Qed.

Lemma split_run (p : char → bool) (l : list char) :
  ∃ a b, l = a ++ b ∧ Forall (λ c, p c = true) a ∧ stops p b.
Proof.
  induction l as [|c l (a & b & -> & Ha & Hb)].
  - exists [], []. by repeat split.
  - destruct (p c) eqn:Hc.
    + exists (c :: a), b. split; [done|]. split; [by constructor|done].
    + exists [], (c :: a ++ b). split; [done|]. split; [constructor|].
      intros c' b0 [= <- _]. done.
Qed.

Lemma rmatch_Chr_eq {R} (c : char) (s : list char) (caps : captures)
    (k : list char → captures → option R) :
  rmatch (Chr c) (c :: s) caps k = k s caps.
Proof. cbn [rmatch]. by rewrite decide_True. Qed.

Lemma rmatch_lit {R} (w : list char) (r : regex) (s : list char)
    (caps : captures) (k : list char → captures → option R) :
  rmatch (lit w r) (w ++ s) caps k = rmatch r s caps k.
Proof.
  induction w as [|c w IH]; [done|]. cbn [lit app rmatch].
  rewrite decide_True by done. apply IH.
Qed.

Lemma rmatch_lit_ne {R} (c c' : char) (w : list char) (r : regex)
    (s : list char) (caps : captures) (k : list char → captures → option R) :
  c' ≠ c → rmatch (lit (c :: w) r) (c' :: s) caps k = None.
Proof. intros Hc. cbn [lit rmatch]. by rewrite decide_False. Qed.

Lemma rmatch_Plus_backtrack {R} (p : char → bool) (a b s : list char)
    (caps : captures) (k : list char → captures → option R) (r : R) :
  a ≠ [] → Forall (λ c, p c = true) a → Forall (λ c, p c = true) b →
  stops p s →
  (∀ x b', b = x ++ b' → x ≠ [] → k (b' ++ s) caps = None) →
  k (b ++ s) caps = Some r →
  rmatch (Plus p) (a ++ b ++ s) caps k = Some r.
Proof.
  intros Hne Ha Hb Hs Hk Hr. destruct a as [|c a]; [done|].
  apply Forall_cons in Ha as [Hc Ha]. cbn [app rmatch]. rewrite Hc.
  by apply greedy_backtrack.
Qed.

Lemma rmatch_Plus_max {R} (p : char → bool) (a s : list char)
    (caps : captures) (k : list char → captures → option R) (r : R) :
  a ≠ [] → Forall (λ c, p c = true) a → stops p s →
  k s caps = Some r →
  rmatch (Plus p) (a ++ s) caps k = Some r.
Proof.
  intros Hne Ha Hs Hr. destruct a as [|c a]; [done|].
  apply Forall_cons in Ha as [Hc Ha]. cbn [app rmatch]. rewrite Hc.
  by apply greedy_max.
Qed.

Lemma take_matched (x y : list char) :
  take (length (x ++ y) - length y) (x ++ y) = x.
Proof.
  rewrite length_app, Nat.add_sub. apply take_app_length.
Qed.

Lemma take_matched_snoc (x : list char) (c : char) (y : list char) :
  take (length (x ++ c :: y) - length y) (x ++ c :: y) = x ++ [c].
Proof. rewrite (cons_middle c x y), (assoc_L (++)). apply take_matched. Qed.

(** [\s*[^\]]*\]] on a text without closing bracket followed by one. *)
Lemma rmatch_group3_body {R} (rest tail : list char) (caps : captures)
    (k : list char → captures → option R) (r : R) :
  Forall (λ c, c ≠ 93%N) rest →
  k tail caps = Some r →
  rmatch (Cat (Star is_space) (Cat (Star not_rbracket) (Chr 93%N)))
         (rest ++ 93%N :: tail) caps k = Some r.
Proof.
  intros Hrest Hk.
  destruct (split_run is_space rest) as (sp & rest' & -> & Hsp & Hhd).
  apply Forall_app in Hrest as [_ Hrest'].
  cbn [rmatch]. rewrite <-(assoc_L (++)).
  apply greedy_max; [done| |].
  - intros c s0 Heq. destruct rest' as [|c' rest'']; cbn [app] in Heq;
      injection Heq as <- <-; [reflexivity|by eapply Hhd].
  - apply greedy_max.
    + eapply Forall_impl; [exact Hrest'|]. intros c Hc.
      unfold not_rbracket. by apply negb_true_iff, N.eqb_neq.
    + intros c s0 [= <- _]. reflexivity.
    + by rewrite decide_True.
Qed.

(** [(\d+)(\s*[^\]]*\])] on the number of a tag and what follows it. *)
Lemma rmatch_number_and_rest {R} (digits rest tail : list char)
    (caps : captures) (k : list char → captures → option R) (r : R) :
  digits ≠ [] → Forall (λ c, is_digit c = true) digits →
  Forall (λ c, c ≠ 93%N) rest → stops is_digit rest →
  k tail (set_group 3 (rest ++ [93%N]) (set_group 2 digits caps)) = Some r →
  rmatch (Cat (Group 2 (Plus is_digit))
              (Group 3 (Cat (Star is_space)
                            (Cat (Star not_rbracket) (Chr 93%N)))))
         (digits ++ rest ++ 93%N :: tail) caps k = Some r.
Proof.
  intros Hne Hd Hrest Hhd Hk.
  change (rmatch (Cat ?r1 ?r2) ?s ?c ?k0)
    with (rmatch r1 s c (λ s1 caps1, rmatch r2 s1 caps1 k0)).
  change (rmatch (Group 2 ?r0) ?s ?c ?k0)
    with (rmatch r0 s c
            (λ s' caps', k0 s' (set_group 2 (take (length s - length s') s)
                                          caps'))).
  apply rmatch_Plus_max; [done..| |].
  - intros c s0 Heq. destruct rest as [|c' rest']; cbn [app] in Heq;
      injection Heq as <- <-; [reflexivity|by eapply Hhd].
  - cbv beta. rewrite take_matched.
    change (rmatch (Group 3 ?r0) ?s ?c ?k0)
      with (rmatch r0 s c
              (λ s' caps', k0 s' (set_group 3 (take (length s - length s') s)
                                            caps'))).
    apply rmatch_group3_body; [done|]. cbv beta.
    rewrite <-Hk. do 2 f_equal. apply take_matched_snoc.
Qed.

(** The whole pattern on a well-formed tag: it matches the tag and
    nothing more, the first group is the tag up to the number sign and
    the third is what follows the number. *)
Lemma take_tag_prefix (w R : list char) :
  take (length (91%N :: 37%N :: w ++ codes "link" ++ 35%N :: R) - length R)
       (91%N :: 37%N :: w ++ codes "link" ++ 35%N :: R)
  = codes "[%" ++ w ++ codes "link#".
Proof.
  assert (91%N :: 37%N :: w ++ codes "link" ++ 35%N :: R
          = (codes "[%" ++ w ++ codes "link#") ++ R) as ->.
  { rewrite <-!(assoc_L (++)). done. }
  apply take_matched.
Qed.

Lemma match_at_tag (w digits rest tail : list char) :
  w ≠ [] → Forall (λ c, is_word c = true) w →
  digits ≠ [] → Forall (λ c, is_digit c = true) digits →
  Forall (λ c, c ≠ 93%N) rest → stops is_digit rest →
  ∃ caps,
    match_at (codes "[%" ++ w ++ codes "link#" ++ digits ++ rest
              ++ codes "]" ++ tail)
    = Some (caps, tail) ∧
    caps 1 = codes "[%" ++ w ++ codes "link#" ∧
    caps 3 = rest ++ codes "]".
Proof.
  intros Hw Hword Hd Hdigit Hrest Hhd.
  exists (set_group 3 (rest ++ codes "]")
            (set_group 2 digits
               (set_group 1 (codes "[%" ++ w ++ codes "link#") (λ _, [])))).
  split; [|split; reflexivity].
  unfold Tags.match_at, Tags.pattern.
  set (tail23 := Cat (Group 2 _) (Group 3 _)).
  match goal with
  | |- rmatch _ ?s _ _ = _ =>
      replace s
        with (91%N :: 37%N :: w ++ codes "link"
              ++ 35%N :: digits ++ rest ++ 93%N :: tail)
        by reflexivity
  end.
  change (rmatch (Cat (Group 1 ?g) tail23) ?s ?c ?k0)
    with (rmatch g s c
            (λ s' caps', rmatch tail23 s'
               (set_group 1 (take (length s - length s') s) caps') k0)).
  change (rmatch (Cat (Chr 91%N) ?r2) ?s ?c ?k0)
    with (rmatch (Chr 91%N) s c (λ s1 caps1, rmatch r2 s1 caps1 k0)).
  rewrite rmatch_Chr_eq.
  change (rmatch (Cat (Chr 37%N) ?r2) ?s ?c ?k0)
    with (rmatch (Chr 37%N) s c (λ s1 caps1, rmatch r2 s1 caps1 k0)).
  rewrite rmatch_Chr_eq.
  change (rmatch (Cat (Plus ?p) ?r2) ?s ?c ?k0)
    with (rmatch (Plus p) s c (λ s1 caps1, rmatch r2 s1 caps1 k0)).
  apply rmatch_Plus_backtrack; [done|done| | | |].
  - repeat constructor.
  - intros c s0 [= <- _]. reflexivity.
  - intros x b' Heq Hx.
    change (codes "link") with [108%N; 105%N; 110%N; 107%N] in Heq |- *.
    destruct x as [|x1 [|x2 [|x3 [|x4 x]]]]; [done|..];
      cbn [app] in Heq; injection Heq as <-; intros; subst;
      try (cbn [app]; by apply rmatch_lit_ne).
    match goal with H : [] = _ ++ _ |- _ =>
      apply eq_sym, app_eq_nil in H as [-> ->] end.
    cbn [app]. by apply rmatch_lit_ne.
  - rewrite rmatch_lit, rmatch_Chr_eq. rewrite take_tag_prefix.
    subst tail23. by apply rmatch_number_and_rest.
Qed.

Lemma match_at_other (c : char) (s : list char) :
  c ≠ 91%N → match_at (c :: s) = None.
Proof.
  intros Hc. unfold Tags.match_at, Tags.pattern. cbn [rmatch].
  by rewrite decide_False.
Qed.

(** Where no opening bracket is, [re.sub] copies. *)
Lemma sub_from_copy repl (before s : list char) :
  Forall (λ c, c ≠ 91%N) before →
  sub_from repl (before ++ s) 0 = before ++ sub_from repl s 0.
Proof.
  induction 1 as [|c before Hc _ IH]; [done|]. cbn [app Tags.sub_from].
  rewrite match_at_other by done. by f_equal.
Qed.

Lemma sub_from_skip repl (x s : list char) :
  sub_from repl (x ++ s) (length x) = sub_from repl s 0.
Proof. induction x as [|c x IH]; [done|]. cbn [app length Tags.sub_from]. done. Qed.

Lemma sub_from_match repl (x rest : list char) (caps : captures) :
  x ≠ [] → match_at (x ++ rest) = Some (caps, rest) →
  sub_from repl (x ++ rest) 0 = repl caps ++ sub_from repl rest 0.
Proof.
  intros Hx Hm. destruct x as [|c x]; [done|]. cbn [app] in *.
  cbn [Tags.sub_from]. rewrite Hm. f_equal.
  replace (length (c :: x ++ rest) - length rest - 1) with (length x).
  - apply sub_from_skip.
  - cbn [length]. rewrite length_app. lia.
Qed.

(** X15: in a selection that holds one well-formed tag, an opening
    bracket, a percent sign, word characters ending in [link], the number
    sign, digits, then anything but a closing bracket up to the closing
    bracket, and no other opening bracket, [update_tag_numbers] replaces
    exactly the digits by the new number; when the tag has that number
    already it reports that there is no tag to change. *)
Theorem update_tag_numbers_single_tag
    (before w digits rest after new_number : list char) :
  Forall (λ c, c ≠ 91%N) before → Forall (λ c, c ≠ 91%N) after →
  w ≠ [] → Forall (λ c, is_word c = true) w →
  digits ≠ [] → Forall (λ c, is_digit c = true) digits →
  Forall (λ c, c ≠ 93%N) rest → stops is_digit rest →
  Forall (λ c, c ≠ 92%N) new_number →
  let tag n := codes "[%" ++ w ++ codes "link#" ++ n ++ rest ++ codes "]" in
  update_tag_numbers (Some (before ++ tag digits ++ after)) new_number
  = if decide (new_number = digits) then InfoNoTagToChange
    else TagsRenumbered (before ++ tag new_number ++ after).
Proof.
  intros Hbefore Hafter Hw Hword Hd Hdigit Hrest Hhd Hnum tag.
  destruct (match_at_tag w digits rest after Hw Hword Hd Hdigit Hrest Hhd)
    as (caps & Hm & Hc1 & Hc3).
  assert (sub_from (λ caps, caps 1 ++ new_number ++ caps 3)
            (before ++ tag digits ++ after) 0
          = before ++ tag new_number ++ after) as Hsub.
  { rewrite sub_from_copy by done. f_equal.
    assert (tag digits ++ after
            = (codes "[%" ++ w ++ codes "link#" ++ digits ++ rest ++ codes "]")
              ++ after) as -> by done.
    rewrite sub_from_match with (caps := caps).
    - rewrite Hc1, Hc3.
      rewrite <-(app_nil_r after) at 1. rewrite sub_from_copy by done.
      cbn [Tags.sub_from]. rewrite app_nil_r. unfold tag.
      by rewrite <-!(assoc_L (++)).
    - done.
    - rewrite <-Hm. f_equal. by rewrite <-!(assoc_L (++)). }
  assert (existsb (λ c, (c =? 92)%N) new_number = false) as Hesc.
  { apply not_true_is_false. intros (c' & Hin & Hc')%existsb_exists.
    apply N.eqb_eq in Hc'. rewrite Forall_forall in Hnum.
    apply (Hnum c'); [by apply list_elem_of_In|done]. }
  assert (before ++ tag new_number ++ after = before ++ tag digits ++ after
          → new_number = digits) as Hinj.
  { intros Heq. apply app_inv_head in Heq. unfold tag in Heq.
    rewrite <-!(assoc_L (++)) in Heq.
    do 3 apply app_inv_head in Heq. by apply app_inv_tail in Heq. }
  unfold Tags.update_tag_numbers. rewrite Hesc.
  destruct (before ++ tag digits ++ after) as [|c0 sel] eqn:Hsel.
  { apply app_eq_nil in Hsel as [_ Hsel]. apply app_eq_nil in Hsel as [Hsel _].
    done. }
  cbv zeta. rewrite Hsub.
  destruct (decide (new_number = digits)) as [->|Hne].
  - rewrite Hsel. by rewrite decide_False by (by intros ?).
  - rewrite decide_True; [done|]. intros Heq. by apply Hne, Hinj.
Qed.

End tags_more.

Lemma update_tag_numbers_single_tag_witness :
  let ascii_only (c : Tags.char) := false in
  Tags.update_tag_numbers ascii_only ascii_only ascii_only
    (Some (Tags.codes "He met [%personlink#12 f l] today")) (Tags.codes "3")
  = Tags.TagsRenumbered (Tags.codes "He met [%personlink#3 f l] today").
Proof.
  intros ascii_only.
  exact (update_tag_numbers_single_tag ascii_only ascii_only ascii_only
           (Tags.codes "He met ") (Tags.codes "person") (Tags.codes "12")
           (Tags.codes " f l") (Tags.codes " today") (Tags.codes "3")
           ltac:(repeat constructor; discriminate)
           ltac:(repeat constructor; discriminate)
           ltac:(discriminate) ltac:(repeat constructor)
           ltac:(discriminate) ltac:(repeat constructor)
           ltac:(repeat constructor; discriminate)
           ltac:(intros c s0 [= <- _]; reflexivity)
           ltac:(repeat constructor; discriminate)).
Defined.

(** ** Inserting a tag and renumbering it *)

Section inserted_tags.
Import Tags Insert.
Variables uni_word uni_digit uni_space : char → bool.

Local Ltac button_case Hcase Hempty w rest :=
  apply (Hcase w rest);
  [ discriminate
  | repeat constructor
  | repeat constructor; discriminate
  | first [exact Hempty | intros c s0 [= <- _]; reflexivity]
  | intros n; reflexivity ].

(** Every button tag is well formed, and [replace] puts the number of
    the spin box in the place of its [1]. *)
Lemma tag_buttons_shape (tag : list char) :
  tag ∈ tag_buttons →
  ∃ w rest,
    w ≠ [] ∧ Forall (λ c, Tags.is_word uni_word c = true) w ∧
    Forall (λ c, c ≠ 93%N) rest ∧
    stops (Tags.is_digit uni_digit) rest ∧
    ∀ n, updated_tag n tag
         = codes "[%" ++ w ++ codes "link#" ++ n ++ rest ++ codes "]".
Proof.
  unfold tag_buttons. rewrite !fmap_cons, fmap_nil, !elem_of_cons, elem_of_nil.
  assert (∀ w rest : string,
    codes w ≠ [] →
    Forall (λ c, Tags.is_word uni_word c = true) (codes w) →
    Forall (λ c, c ≠ 93%N) (codes rest) →
    stops (Tags.is_digit uni_digit) (codes rest) →
    (∀ n, updated_tag n (codes ("[%" +:+ w +:+ "link#1" +:+ rest +:+ "]"))
          = codes "[%" ++ codes w ++ codes "link#" ++ n ++ codes rest
            ++ codes "]") →
    ∃ w' rest',
      w' ≠ [] ∧ Forall (λ c, Tags.is_word uni_word c = true) w' ∧
      Forall (λ c, c ≠ 93%N) rest' ∧
      stops (Tags.is_digit uni_digit) rest' ∧
      ∀ n, updated_tag n (codes ("[%" +:+ w +:+ "link#1" +:+ rest +:+ "]"))
           = codes "[%" ++ w' ++ codes "link#" ++ n ++ rest' ++ codes "]")
    as Hcase by (intros w rest; eauto 10).
  assert (stops (Tags.is_digit uni_digit) (codes "")) as Hempty
    by (intros c s0 [=]).
  intros [->|[->|[->|[->|[->|[->|[->|[->|[->|[->|[->|[->|[]]]]]]]]]]]]].
  - button_case Hcase Hempty "person" " f l".
  - button_case Hcase Hempty "person" " l".
  - button_case Hcase Hempty "team" "".
  - button_case Hcase Hempty "city" "".
  - button_case Hcase Hempty "stat" "".
  - button_case Hcase Hempty "date" "".
  - button_case Hcase Hempty "league" "".
  - button_case Hcase Hempty "stadium" "".
  - button_case Hcase Hempty "award" "".
  - button_case Hcase Hempty "salary" "".
  - button_case Hcase Hempty "record" "".
  - button_case Hcase Hempty "age" "".
Qed.

(** X16: a tag inserted by one of the twelve buttons while the spin box
    holds the digits [n] is, once selected, renumbered by
    [update_tag_numbers] to the very tag the button inserts when the spin
    box holds [m]; the text around the insertion is kept. *)
Theorem inserted_tag_renumbers
    (tag n m text : list char) (cursor : nat) :
  tag ∈ tag_buttons →
  n ≠ [] → Forall (λ c, Tags.is_digit uni_digit c = true) n →
  Forall (λ c, c ≠ 92%N) m →
  (cursor ≤ length text)%nat →
  let after_insert := insert_tag text cursor n tag in
  let selection :=
    take (after_insert.2 - cursor) (drop cursor after_insert.1) in
  take cursor after_insert.1 = take cursor text ∧
  drop after_insert.2 after_insert.1 = drop cursor text ∧
  selection = updated_tag n tag ∧
  Tags.update_tag_numbers uni_word uni_digit uni_space (Some selection) m
  = if decide (m = n) then InfoNoTagToChange
    else TagsRenumbered (updated_tag m tag).
Proof.
  intros Htag Hn Hdigit Hm Hcursor after_insert selection.
  assert (length (take cursor text) = cursor) as Hlen
    by (rewrite length_take; lia).
  assert (selection = updated_tag n tag) as Hsel.
  { unfold selection, after_insert, insert_tag. cbn [fst snd].
    rewrite drop_app_length' by done.
    replace (cursor + length (updated_tag n tag) - cursor)
      with (length (updated_tag n tag)) by lia.
    apply take_app_length. }
  split; [|split; [|split; [exact Hsel|]]].
  - unfold after_insert, insert_tag. cbn [fst]. by apply take_app_length'.
  - unfold after_insert, insert_tag. cbn [fst snd].
    rewrite (assoc_L (++)). apply drop_app_length'.
    rewrite length_app. lia.
  - rewrite Hsel.
    destruct (tag_buttons_shape tag Htag)
      as (w & rest & Hw & Hword & Hrest & Hhd & Hshape).
    rewrite !Hshape.
    pose proof (update_tag_numbers_single_tag uni_word uni_digit uni_space
                  [] w n rest [] m) as H.
    cbn [app] in H. rewrite !app_nil_r in H.
    apply H; done || constructor.
Qed.

End inserted_tags.

Lemma inserted_tag_renumbers_witness :
  let ascii_only (c : Tags.char) := false in
  Tags.update_tag_numbers ascii_only ascii_only ascii_only
    (Some (Insert.updated_tag (Tags.codes "2") (Tags.codes "[%teamlink#1]")))
    (Tags.codes "7")
  = Tags.TagsRenumbered
      (Insert.updated_tag (Tags.codes "7") (Tags.codes "[%teamlink#1]")).
Proof.
  intros ascii_only.
  pose proof (inserted_tag_renumbers ascii_only ascii_only ascii_only
                (Tags.codes "[%teamlink#1]") (Tags.codes "2") (Tags.codes "7")
                (Tags.codes "Go ") 3) as H.
  destruct H as (_ & _ & Hsel & Hren).
  - unfold Insert.tag_buttons. rewrite !fmap_cons.
    do 2 apply list_elem_of_further. apply list_elem_of_here.
  - discriminate.
  - repeat constructor.
  - repeat constructor; discriminate.
  - cbn. lia.
  - rewrite Hsel in Hren. exact Hren.
Defined.

(** ** The participants as shared objects *)

Section shared_participants.
Import GUI Shared.

Lemma clear_main_actor_at (l : list ref) : ∀ (h : store) (r : ref),
  clear_main_actor h l r
  = if decide (r ∈ l) then delete "main_actor" (h r) else h r.
Proof.
  unfold clear_main_actor.
  induction l as [|a l IH]; intros h r; cbn [foldl].
  { rewrite decide_False; [done|apply not_elem_of_nil]. }
  rewrite IH. unfold update.
  destruct (decide (r = a)) as [->|Hne].
  - rewrite (decide_True (P := a ∈ a :: l)) by apply list_elem_of_here.
    destruct (decide (a ∈ l)); [|done]. by rewrite delete_delete_eq.
  - destruct (decide (r ∈ l)) as [Hin|Hin].
    + by rewrite decide_True by (by apply list_elem_of_further).
    + rewrite decide_False; [done|]. rewrite elem_of_cons. by intros [?|?].
Qed.

Lemma deref_clear_main_actor (h : store) (l : list ref) :
  deref (clear_main_actor h l) l = delete "main_actor" <$> deref h l.
Proof.
  unfold deref. rewrite <-list_fmap_compose. apply list_fmap_ext.
  intros i r Hr. rewrite clear_main_actor_at.
  by rewrite decide_True by (by eapply list_elem_of_lookup_2).
Qed.

(** Writing one object shows at its one place in a list of distinct
    objects. *)
Lemma deref_update (h : store) (l : list ref) (index : nat) (r : ref)
    (d : gmap string string) :
  NoDup l → l !! index = Some r →
  deref (update h r d) l = <[index := d]> (deref h l).
Proof.
  intros Hnd Hr. unfold deref. apply list_eq. intros j.
  rewrite list_lookup_fmap.
  destruct (decide (j = index)) as [->|Hj].
  - rewrite list_lookup_insert_eq
      by (rewrite length_fmap; by eapply lookup_lt_Some).
    rewrite Hr. cbn. unfold update. by rewrite decide_True.
  - rewrite list_lookup_insert_ne by done. rewrite list_lookup_fmap.
    destruct (l !! j) as [r'|] eqn:Hj'; [|done]. cbn. f_equal.
    unfold update. rewrite decide_False; [done|]. intros ->.
    apply Hj. by eapply NoDup_lookup.
Qed.

Lemma deref_new_object (e : editor) (d : gmap string string) (l : list ref) :
  Forall (λ r, r < next_ref e) l →
  deref (new_object e d) l = deref (objects e) l.
Proof.
  intros Hl. unfold deref, new_object. apply Forall_fmap_ext_1.
  eapply Forall_impl; [exact Hl|]. intros r Hr. unfold update.
  rewrite decide_False; [done|]. intros ->. by apply Nat.lt_irrefl in Hr.
Qed.

(** The store and the outcome of [set_main_actor] on a list of distinct
    objects, by the function on values. *)
Lemma set_main_actor_deref (e : editor) (selected : list nat) :
  NoDup (required_data_list e) →
  let after := Shared.set_main_actor e selected in
  let expected :=
    GUI.set_main_actor (deref (objects e) (required_data_list e)) selected in
  deref (objects after.1) (required_data_list e) = expected.1 ∧
  after.2 = expected.2 ∧
  required_data_list after.1 = required_data_list e ∧
  record_required_data after.1 = record_required_data e.
Proof.
  intros Hnd. cbv zeta. unfold Shared.set_main_actor, GUI.set_main_actor.
  destruct selected as [|index selected]; [done|].
  rewrite <-deref_clear_main_actor.
  set (h := clear_main_actor (objects e) (required_data_list e)).
  assert (deref h (required_data_list e) !! index
          = h <$> required_data_list e !! index) as ->
    by apply list_lookup_fmap.
  destruct (required_data_list e !! index) as [r|] eqn:Hr; cbn [fmap option_fmap
    option_map fst snd objects required_data_list record_required_data];
    [|done].
  rewrite <-(deref_update h _ index r) by done. done.
Qed.

(** X17: the editor works on the very dicts of the record.  With the
    open storyline loaded into the fields, [set_main_actor] gives the
    editor's list the contents and the outcome the function on values
    gives, and the record of the storyline has these contents too, before
    anything is saved. *)
Theorem set_main_actor_changes_the_record
    (e : editor) (selected : list nat) :
  NoDup (record_required_data e) →
  let opened := load_storyline_to_fields e in
  let after := Shared.set_main_actor opened selected in
  let expected :=
    GUI.set_main_actor (deref (objects e) (record_required_data e)) selected in
  deref (objects after.1) (required_data_list after.1) = expected.1 ∧
  after.2 = expected.2 ∧
  deref (objects after.1) (record_required_data after.1) = expected.1.
Proof.
  intros Hnd opened after expected.
  destruct (set_main_actor_deref opened selected Hnd) as (H1 & H2 & H3 & H4).
  fold after in H1, H2, H3, H4. rewrite H3, H4.
  split; [exact H1|]. split; [exact H2|exact H1].
Qed.

Lemma set_main_actor_changes_the_record_witness :
  let objects := update (update (λ _, ∅) 0 {[ "type" := "PLAYER" ]})
                        1 {[ "type" := "TEAM" ]} in
  let e := Editor objects 2 [0; 1] [] in
  let after := Shared.set_main_actor (load_storyline_to_fields e) [1] in
  deref (Shared.objects after.1) (record_required_data after.1)
  = [ {[ "type" := "PLAYER" ]}; {[ "type" := "TEAM"; "main_actor" := "1" ]} ].
Proof.
  intros objects e after.
  destruct (set_main_actor_changes_the_record e [1]) as (_ & _ & H).
  { change (NoDup [0; 1]). apply NoDup_cons.
    split; [rewrite list_elem_of_singleton; discriminate|apply NoDup_singleton]. }
  subst after. rewrite H. vm_compute. reflexivity.
Defined.

(** X18: adding, replacing and removing a participant in the editor
    changes the editor's list only: the list grows by the new dict, has it
    at the selected place, or loses the selected entry, and the record of
    the open storyline holds what it held. *)
Theorem list_edits_do_not_reach_the_record
    (e : editor) (index : nat) (more_selected : list nat)
    (d : gmap string string) :
  Forall (λ r, r < next_ref e) (record_required_data e) →
  Forall (λ r, r < next_ref e) (required_data_list e) →
  d ≠ ∅ →
  let in_record e' := deref (objects e') (record_required_data e') in
  let in_editor e' := deref (objects e') (required_data_list e') in
  let added := add_required_data e (Some d) in
  let edited := edit_required_data e (index :: more_selected) (Some d) in
  let deleted := delete_required_data e (index :: more_selected) true in
  (in_record added = in_record e ∧ in_editor added = in_editor e ++ [d]) ∧
  (in_record edited = in_record e ∧
   in_editor edited = <[index := d]> (in_editor e)) ∧
  (in_record deleted = in_record e ∧
   ∀ data, in_editor e !! index = Some data → is_Some (data !! "type") →
           in_editor deleted = delete index (in_editor e)).
Proof.
  intros Hrec Hlist Hd in_record in_editor added edited deleted.
  subst in_record in_editor added edited deleted. cbv beta.
  unfold add_required_data, edit_required_data, delete_required_data.
  rewrite !decide_False by done.
  split; [|split].
  - cbn [objects record_required_data required_data_list].
    split; [by apply deref_new_object|].
    unfold deref at 1. rewrite fmap_app. fold (deref (new_object e d)).
    rewrite deref_new_object by done. cbn [fmap list_fmap]. f_equal.
    unfold new_object, update. by rewrite decide_True.
  - destruct (decide (index < length (required_data_list e))) as [Hlt|Hge].
    + cbn [objects record_required_data required_data_list].
      split; [by apply deref_new_object|].
      unfold deref at 1. rewrite list_fmap_insert.
      fold (deref (new_object e d)). rewrite deref_new_object by done.
      f_equal. unfold new_object, update. by rewrite decide_True.
    + split; [done|]. symmetry. apply list_insert_ge.
      unfold deref. rewrite length_fmap. lia.
  - destruct (required_data_list e !! index) as [r|] eqn:Hr.
    + destruct (bool_decide (is_Some (objects e r !! "type"))) eqn:Ht;
        cbn [andb objects record_required_data required_data_list].
      * split; [done|]. intros data _ _. unfold deref.
        by rewrite list_fmap_delete.
      * split; [done|]. intros data Hdata Htype. exfalso.
        apply bool_decide_eq_false in Ht. apply Ht.
        unfold deref in Hdata. rewrite list_lookup_fmap, Hr in Hdata.
        by injection Hdata as <-.
    + split; [done|]. intros data Hdata. unfold deref in Hdata.
      by rewrite list_lookup_fmap, Hr in Hdata.
Qed.

Lemma list_edits_do_not_reach_the_record_witness :
  let objects := update (λ _, ∅) 0 {[ "type" := "PLAYER" ]} in
  let e := load_storyline_to_fields (Editor objects 1 [0] []) in
  let d : gmap string string := {[ "type" := "TEAM" ]} in
  let edited := edit_required_data e [0] (Some d) in
  deref (Shared.objects edited) (record_required_data edited)
  = [ {[ "type" := "PLAYER" ]} ] ∧
  deref (Shared.objects edited) (required_data_list edited) = [d].
Proof.
  intros objects e d edited.
  destruct (list_edits_do_not_reach_the_record e 0 [] d)
    as (_ & (Hrec & Hed) & _).
  - repeat constructor.
  - repeat constructor.
  - by apply insert_non_empty.
  - subst edited. cbv zeta in Hrec, Hed. rewrite Hrec, Hed. split; reflexivity.
Defined.

End shared_participants.

(** ** Deleting a storyline *)

Section deleting.
Import GUI Editor Deletion.
Variable strip : string → string.

Lemma writable_title (s : storyline) : writable s → title_raises s = false.
Proof.
  intros (_ & _ & Ha). unfold title_raises.
  destruct (articles s) as [l|t]; [done|]. cbn in Ha. subst t.
  by apply bool_decide_eq_false_2; intros [].
Qed.

Lemma writable_id (s : storyline) :
  writable s → ∃ v, getitem s "id" = Ok v.
Proof.
  intros (Hk & _). destruct (Hk "id") as [v Hv]; [apply list_elem_of_here|].
  exists v. unfold getitem. by rewrite Hv.
Qed.

(** A confirmed [delete_current_storyline] on a record that can be
    written. *)
Lemma delete_current_storyline_confirmed
    (self : session) (i : nat) (s : storyline) :
  current_storyline_index self = Some i →
  storylines self !! i = Some s → writable s →
  delete_current_storyline self true
  = (Session (delete i (storylines self)) (Some i) (current_article_index self),
     Ok StorylineDeleted).
Proof.
  intros Hi Hs Hw. unfold delete_current_storyline. rewrite Hi, Hs.
  destruct (writable_id s Hw) as [v ->]. by rewrite writable_title.
Qed.

(** X19: [delete_current_storyline] deletes the open storyline and leaves
    [current_storyline_index] as it is, so the index then designates the
    storyline that followed.  A second confirmed call deletes that one
    too; when there is none, it raises IndexError and changes nothing. *)
Theorem delete_current_storyline_twice (self : session) (i : nat) :
  current_storyline_index self = Some i →
  i < length (storylines self) →
  Forall writable (storylines self) →
  let once := delete_current_storyline self true in
  let twice := delete_current_storyline once.1 true in
  once.2 = Ok StorylineDeleted ∧
  current_storyline_index once.1 = Some i ∧
  storylines once.1 !! i = storylines self !! S i ∧
  if decide (S i < length (storylines self)) then
    twice.2 = Ok StorylineDeleted ∧
    storylines twice.1
    = take i (storylines self) ++ drop (i + 2) (storylines self)
  else twice = (once.1, Raise IndexError).
Proof.
  intros Hi Hlt Hw once twice.
  destruct (lookup_lt_is_Some_2 _ _ Hlt) as [s Hs].
  assert (∀ j s, storylines self !! j = Some s → writable s) as Hlook.
  { intros j s' Hs'. rewrite Forall_forall in Hw. apply Hw.
    by eapply list_elem_of_lookup_2. }
  assert (once = (Session (delete i (storylines self)) (Some i)
                          (current_article_index self), Ok StorylineDeleted))
    as Honce by (apply (delete_current_storyline_confirmed self i s);
                 [done|done|by eapply Hlook]).
  subst twice. rewrite Honce. cbn [fst snd current_storyline_index storylines].
  split; [done|]. split; [done|].
  split; [by apply list_lookup_delete_ge|].
  destruct (decide (S i < length (storylines self))) as [Hnext|Hlast].
  - destruct (lookup_lt_is_Some_2 _ _ Hnext) as [s' Hs'].
    rewrite (delete_current_storyline_confirmed _ i s');
      [|done|cbn [storylines]; by rewrite list_lookup_delete_ge|by eapply Hlook].
    cbn [fst snd storylines]. split; [done|].
    rewrite (delete_take_drop (storylines self)).
    rewrite delete_take_drop.
    rewrite take_app_length' by (rewrite length_take; lia).
    rewrite drop_app_ge by (rewrite length_take; lia).
    rewrite length_take, drop_drop. do 2 f_equal. lia.
  - unfold delete_current_storyline.
    cbn [current_storyline_index storylines].
    rewrite list_lookup_delete_ge by done.
    by rewrite lookup_ge_None_2 by lia.
Qed.

(** [save_current_article] does not raise on an open storyline whose
    articles are a list. *)
Lemma save_current_article_ok (self : session) (a : article_fields)
    (i : nat) (s : storyline) (l : list article) :
  current_storyline_index self = Some i →
  storylines self !! i = Some s → articles s = Items l →
  (save_current_article strip self a).2 = Ok ().
Proof.
  intros Hi Hs Hl. unfold save_current_article. rewrite Hi, Hs, Hl.
  destruct (decide _); [|done]. by destruct (decide _).
Qed.

(** X20: as [delete_current_storyline] leaves [current_storyline_index],
    a [save_storyline] that comes after it (Ctrl+Return is bound on the
    root window) stores the fields over the storyline that followed the
    deleted one, which loses its attributes and participants; the
    collection has lost two records.  When no storyline followed, the
    save raises IndexError and changes nothing. *)
Theorem save_after_delete_overwrites_next
    (self : session) (i : nat) (s : storyline)
    (f : storyline_fields) (a : article_fields) :
  current_storyline_index self = Some i →
  storylines self !! i = Some s → writable s →
  let after_delete := (delete_current_storyline self true).1 in
  let after_save := save_storyline strip after_delete f a in
  storylines after_delete = delete i (storylines self) ∧
  match storylines self !! S i with
  | None => after_save = (after_delete, Raise IndexError)
  | Some next =>
      ∀ arts, articles next = Items arts →
      ∃ arts',
        length arts' = length arts ∧
        after_save.2 = Ok () ∧
        storylines after_save.1
        = <[i := Storyline (collect_scalars f) (Items (required_data_list f))
                           (Items arts')]> (delete i (storylines self))
  end.
Proof.
  intros Hi Hs Hw after_delete after_save. subst after_save after_delete.
  rewrite (delete_current_storyline_confirmed self i s) by done.
  cbn [fst]. split; [done|].
  set (self1 := Session (delete i (storylines self)) (Some i)
                        (current_article_index self)).
  assert (current_storyline_index self1 = Some i) as Hi1 by done.
  assert (storylines self1 = delete i (storylines self)) as Hst1 by done.
  assert (storylines self1 !! i = storylines self !! S i) as Hnext
    by (rewrite Hst1; by apply list_lookup_delete_ge).
  clearbody self1.
  destruct (storylines self !! S i) as [next|] eqn:Hn.
  - intros arts Harts. unfold save_storyline. rewrite Hi1.
    pose proof (save_current_article_ok self1 a i next arts Hi1 Hnext Harts)
      as Hok.
    destruct (save_current_article strip self1 a) as [self2 r] eqn:H2.
    cbn [snd] in Hok. subst r.
    apply save_current_article_storylines in H2
      as [->|(i' & s' & l & _ & Hi' & Hs' & Hl & ->)].
    + rewrite Hnext, Harts. exists arts. cbn [fst snd storylines].
      by rewrite Hst1.
    + rewrite Hi1 in Hi'. injection Hi' as <-.
      rewrite Hnext in Hs'. injection Hs' as <-.
      rewrite Harts in Hl. injection Hl as <-.
      cbn [storylines].
      rewrite list_lookup_insert_eq by (by eapply lookup_lt_Some).
      cbn [articles fst snd storylines]. eexists.
      split; [apply length_insert|]. split; [done|].
      by rewrite list_insert_insert_eq, Hst1.
  - unfold save_storyline. rewrite Hi1.
    assert (save_current_article strip self1 a = (self1, Raise IndexError) ∨
            save_current_article strip self1 a = (self1, Ok ())) as [->| ->].
    { unfold save_current_article. rewrite Hi1, Hnext.
      destruct (decide _); [by left|by right]. }
    + done.
    + by rewrite Hnext.
Qed.


End deleting.

Lemma delete_current_storyline_twice_witness :
  let s x := GUI.Storyline (<["id" := x]> (list_to_map GUI.defaults))
               (GUI.Items []) (GUI.Items []) in
  let self := GUI.Session [s "a"; s "b"; s "c"] (Some 0) 0 in
  GUI.storylines (Deletion.delete_current_storyline
                    (Deletion.delete_current_storyline self true).1 true).1
  = [s "c"].
Proof.
  intros s self.
  assert (∀ x, writable (s x)) as Hs.
  { intros x. split; [|done]. intros k Hk. cbn [GUI.attrs s].
    destruct (decide (k = "id")) as [->|Hne];
      [by rewrite lookup_insert_eq|rewrite lookup_insert_ne by done].
    apply (canonical_writable
             (GUI.Storyline (list_to_map GUI.defaults) (GUI.Items [])
                            (GUI.Items []))); [|done].
    apply defaults_canonical. constructor. }
  destruct (delete_current_storyline_twice self 0) as (_ & _ & _ & H).
  - reflexivity.
  - cbn. lia.
  - repeat constructor; apply Hs.
  - rewrite decide_True in H by (cbn; lia). exact (proj2 H).
Defined.

Lemma save_after_delete_overwrites_next_witness :
  let s x := GUI.Storyline (<["id" := x]> (list_to_map GUI.defaults))
               (GUI.Items [ {[ "type" := "PLAYER" ]} ])
               (GUI.Items [GUI.Article "article_1" x "" "" ∅]) in
  let self := GUI.Session [s "a"; s "b"] (Some 0) 0 in
  let f := Editor.StorylineFields "a" "1000" "" "" "" "" false false false
             false false [] in
  let a := Editor.ArticleFields "article_1" "a" "" "" ∅ in
  let after_delete := (Deletion.delete_current_storyline self true).1 in
  ∃ arts,
    GUI.storylines (Editor.save_storyline id after_delete f a).1
    = [GUI.Storyline (Editor.collect_scalars f) (GUI.Items []) (GUI.Items arts)].
Proof.
  intros s self f a after_delete.
  assert (writable (s "a")) as Hs.
  { split; [|done]. intros k Hk. cbn [GUI.attrs s].
    destruct (decide (k = "id")) as [->|Hne];
      [by rewrite lookup_insert_eq|rewrite lookup_insert_ne by done].
    apply (canonical_writable
             (GUI.Storyline (list_to_map GUI.defaults) (GUI.Items [])
                            (GUI.Items []))); [|done].
    apply defaults_canonical. constructor. }
  destruct (save_after_delete_overwrites_next id self 0 (s "a") f a
              eq_refl eq_refl Hs) as [_ H].
  destruct (H _ eq_refl) as (arts & _ & _ & Hst).
  exists arts. exact Hst.
Defined.

